(** * reducer-redux: Matchers, their combinators and the tree dispatcher

    A shallow embedding of [src/src/reducer.js] (the Matcher library built on
    Ramda, and the tree dispatcher built on lodash) together with the helpers
    of [util] it calls.

    Conventions of the embedding.
    - A JavaScript value (a state, an action, an argument) is a [val]; an
      object is the association list of its own enumerable properties in
      insertion order, each key listed once.  Reading a property reads an
      own property: what an object inherits from its prototype is not
      modelled, and the properties about the tree dispatcher keep the names
      that every object inherits out of the way by hypothesis ([own_reads]).
      Numbers are integers, written in full as keys.
    - A function is its behaviour on the list of its call arguments
      ([func]), together with the [length] it declares where the code reads
      it; a call may throw, and it leaves a trace of the user functions that
      ran, so that "is never evaluated" can be stated.
    - Matchers are function objects with identity: they live in a [heap], a
      Matcher value is an address, and constructing one allocates.
    - Ramda curries the functions it makes: [R.ifElse] and [R.nthArg] return
      a function of a fixed arity which, called with fewer arguments, runs
      nothing and returns a function that waits for the rest ([fnval]).
      Ramda's placeholder [R.__] is not among the values. *)

From Stdlib Require Import List String Ascii ZArith Bool Lia PeanoNat DecimalString.
Import ListNotations.
Local Open Scope string_scope.
Local Open Scope list_scope.
Set Warnings "-register-all".

(** ** JavaScript values *)

Module JS.

(** The values.  A function value ([fnval]) is one of the functions that a
    call of the library can return: a Matcher, by address, or a function
    that Ramda's currying makes when a call brings fewer arguments than the
    callee declares, holding the arguments received so far. *)
Inductive val : Type :=
| VUndefined
| VNull
| VBool (b : bool)
| VNum (n : Z)
| VStr (s : string)
| VObj (fields : list (string * val))
| VFun (f : fnval)
with fnval : Type :=
| Itself (m : nat)
    (* the Matcher at address [m] *)
| Partial (m : nat) (received : list val)
    (* the Matcher at [m], waiting for more arguments *)
| NthArgPartial (n : nat) (received : list val)
    (* [R.nthArg(n)], waiting for more arguments *)
| DefaultPartial (d : val) (m : nat) (received : list val).
    (* [match.withDefault(d)] of the Matcher at [m], waiting for more
       arguments *)

(** [o[k]] on the own properties of an object: the first binding of [k]. *)
Fixpoint lookup {A : Type} (k : string) (o : list (string * A)) : option A :=
  match o with
  | [] => None
  | (k', a) :: o' => if k' =? k then Some a else lookup k o'
  end.

Definition keys {A : Type} (o : list (string * A)) : list string := map fst o.

(** ToBoolean. *)
Definition truthy (v : val) : bool :=
  match v with
  | VUndefined | VNull => false
  | VBool b => b
  | VNum n => negb (n =? 0)%Z
  | VStr s => negb (s =? "")
  | VObj _ | VFun _ => true
  end.

Definition is_undefined (v : val) : bool :=
  match v with VUndefined => true | _ => false end.

(** ToPropertyKey, as applied by [o[v]] to a value used as a key.  A number
    is written in full, as JavaScript writes the integers it represents
    exactly (up to 2^53 in absolute value); an object is written by the
    [toString] it inherits; the text of a function is not modelled.  The
    values on which this is exact are the [keyable] ones. *)
Definition to_key (v : val) : string :=
  match v with
  | VUndefined => "undefined"
  | VNull => "null"
  | VBool true => "true"
  | VBool false => "false"
  | VNum n => NilZero.string_of_int (Z.to_int n)
  | VStr s => s
  | VObj _ => "[object Object]"
  | VFun _ => "function"
  end.

(** A canonical array index: the decimal numeral of a natural number. *)
Definition array_index (k : string) : option nat :=
  match NilZero.uint_of_string k with
  | Some u =>
      let n := Nat.of_uint u in
      if NilZero.string_of_uint (Nat.to_uint n) =? k then Some n else None
  | None => None
  end.

Inductive error : Type :=
| Error (message : string)   (* [throw new Error(message)] *)
| TypeError.                 (* raised by the runtime *)

Inductive result (A : Type) : Type :=
| Ok (a : A)
| Throw (e : error).
Arguments Ok {A} a.
Arguments Throw {A} e.

(** [v[k]], on own properties: reading a property throws on [undefined] and
    [null]; a string has its [length] and its characters; the other
    primitives have no own property, and the properties of a function are
    not modelled. *)
Definition get (v : val) (k : string) : result val :=
  match v with
  | VUndefined | VNull => Throw TypeError
  | VObj fields =>
      Ok (match lookup k fields with Some x => x | None => VUndefined end)
  | VStr s =>
      Ok (if k =? "length" then VNum (Z.of_nat (String.length s))
          else match array_index k with
               | Some i =>
                   match String.get i s with
                   | Some c => VStr (String c EmptyString)
                   | None => VUndefined
                   end
               | None => VUndefined
               end)
  | VBool _ | VNum _ | VFun _ => Ok VUndefined
  end.

(** [R.equals]: primitives by value, objects by having the same number of
    keys and equal values under every key of the first, functions by
    identity (a function made by a call is an object of its own). *)
Fixpoint equals (a b : val) {struct a} : bool :=
  match a, b with
  | VUndefined, VUndefined => true
  | VNull, VNull => true
  | VBool x, VBool y => Bool.eqb x y
  | VNum x, VNum y => (x =? y)%Z
  | VStr x, VStr y => x =? y
  | VObj fa, VObj fb =>
      (List.length fa =? List.length fb)%nat &&
      (fix every (fs : list (string * val)) : bool :=
         match fs with
         | [] => true
         | (k, v) :: fs' =>
             match lookup k fb with
             | Some w => equals v w
             | None => false
             end && every fs'
         end) fa
  | VFun (Itself m), VFun (Itself m') => (m =? m')%nat
  | _, _ => false
  end.

(** A number as [Math.max] and Ramda's arity check read it: an integer, or
    [None] for NaN. *)
Definition number : Type := option Z.

(** ToNumber, where the result is an integer; a string is read as a decimal
    numeral (its other numeric spellings are not modelled). *)
Definition to_number (v : val) : number :=
  match v with
  | VNum n => Some n
  | VBool true => Some 1%Z
  | VBool false => Some 0%Z
  | VNull => Some 0%Z
  | VStr s =>
      if s =? "" then Some 0%Z
      else match NilZero.uint_of_string s with
           | Some u => Some (Z.of_nat (Nat.of_uint u))
           | None => None
           end
  | VUndefined | VObj _ | VFun _ => None
  end.

(** [Math.max(a, b)]. *)
Definition Math_max (a b : number) : number :=
  match a, b with
  | Some x, Some y => Some (Z.max x y)
  | _, _ => None
  end.

End JS.
Export JS.

(** ** Effects: exceptions and the trace of user calls *)

Module Eff.

(** The exception monad, for code that calls no user function. *)
Definition bindR {A B : Type} (r : result A) (k : A -> result B) : result B :=
  match r with
  | Ok a => k a
  | Throw e => Throw e
  end.

Fixpoint mapR {A B : Type} (f : A -> result B) (l : list A) : result (list B) :=
  match l with
  | [] => Ok []
  | a :: l' => bindR (f a) (fun b => bindR (mapR f l') (fun bs => Ok (b :: bs)))
  end.

(** A user function that ran, with the arguments it received. *)
Inductive event : Type :=
| Called (callee : string) (args : list val).

(** A call: the events it produced, then its value or the exception. *)
Definition M (A : Type) : Type := (list event * result A)%type.

Definition ret {A : Type} (a : A) : M A := ([], Ok a).
Definition throw {A : Type} (e : error) : M A := ([], Throw e).
Definition lift {A : Type} (r : result A) : M A := ([], r).

Definition bind {A B : Type} (m : M A) (k : A -> M B) : M B :=
  match m with
  | (t, Ok a) => let (t', r) := k a in (t ++ t', r)
  | (t, Throw e) => (t, Throw e)
  end.

Definition trace {A : Type} (m : M A) : list event := fst m.
Definition outcome {A : Type} (m : M A) : result A := snd m.

Fixpoint mapM {A B : Type} (f : A -> M B) (l : list A) : M (list B) :=
  match l with
  | [] => ret []
  | a :: l' => bind (f a) (fun b => bind (mapM f l') (fun bs => ret (b :: bs)))
  end.

(** The behaviour of a function: from its call arguments to a call. *)
Definition func : Type := list val -> M val.

(** A user function instrumented to record its calls (a [jest.fn]). *)
Definition spy (name : string) (impl : list val -> val) : func :=
  fun args => ([Called name args], Ok (impl args)).

End Eff.
Export Eff.

Declare Scope eff_scope.
Notation "x <- m ;; k" := (bind m (fun x => k))
  (at level 61, m at next level, right associativity) : eff_scope.
Notation "x <-? r ;; k" := (bindR r (fun x => k))
  (at level 61, r at next level, right associativity) : eff_scope.
Local Open Scope eff_scope.

(** ** The Ramda functions the source uses *)

Module R.

(** [R.identity]: its first argument (the library calls it with one at
    least). *)
Definition identity : func := fun args => ret (nth 0 args VUndefined).

(** [R.T] and [R.F]. *)
Definition T : func := fun _ => ret (VBool true).
Definition F : func := fun _ => ret (VBool false).

(** [R.always(x)]. *)
Definition always (x : val) : func := fun _ => ret x.

(** Ramda's [_arity(n, fn)]: it makes functions of zero to ten
    parameters. *)
Definition arity_error : error :=
  Error "First argument to _arity must be a non-negative integer no greater than ten".

Definition arity_ (n : number) : result nat :=
  match n with
  | Some n =>
      if (0 <=? n)%Z && (n <=? 10)%Z then Ok (Z.to_nat n) else Throw arity_error
  | None => Throw arity_error
  end.

(** [R.curryN(length, fn)], called for the first time: with [length]
    arguments or more, [fn] runs on all of them; with fewer, nothing runs
    and the call returns the function [waiting] for the rest, which holds
    the arguments received. *)
Definition curryN (length : nat) (waiting : list val -> fnval) (fn : func) : func :=
  fun args =>
    if (length <=? List.length args)%nat then fn args
    else ret (VFun (waiting args)).

(** What the function made by [R.ifElse(condition, onTrue, onFalse)] does
    with its arguments: all three receive them. *)
Definition ifElse_call (condition onTrue onFalse : func) : func :=
  fun args =>
    c <- condition args ;;
    if truthy c then onTrue args else onFalse args.

(** [R.ifElse(condition, onTrue, onFalse)], each function given with its
    [length]: [R.curryN] of the longest of the three lengths, which throws
    when that is not an arity.  The result is the function and its
    length. *)
Definition ifElse (waiting : nat -> list val -> fnval)
    (condition onTrue onFalse : number * func) : result (nat * func) :=
  length <-? arity_ (Math_max (fst condition) (Math_max (fst onTrue) (fst onFalse))) ;;
  Ok (length,
      curryN length (waiting length)
        (ifElse_call (snd condition) (snd onTrue) (snd onFalse))).

(** [R.nthArg(n)]: [R.curryN(n + 1, ...)]. *)
Definition nthArg (n : nat) : func :=
  curryN (S n) (NthArgPartial n) (fun args => ret (nth n args VUndefined)).

(** [R.pipe(f, g)]: [f] receives the arguments, [g] the value of [f]. *)
Definition pipe (f g : func) : func :=
  fun args => x <- f args ;; g [x].

(** [R.find(pred, list)]: the first element whose predicate value is truthy;
    the elements after it are not tested. *)
Fixpoint find {A : Type} (pred : A -> M val) (l : list A) : M (option A) :=
  match l with
  | [] => ret None
  | a :: l' =>
      c <- pred a ;;
      if truthy c then ret (Some a) else find pred l'
  end.

(** [R.where(spec, testObj)]: every predicate of [spec] holds of the
    property of [testObj] under the same key; stops at the first that
    fails. *)
Fixpoint where_ (spec : list (string * func)) (testObj : val) : M val :=
  match spec with
  | [] => ret (VBool true)
  | (prop, pred) :: spec' =>
      x <- lift (get testObj prop) ;;
      c <- pred [x] ;;
      if truthy c then where_ spec' testObj else ret (VBool false)
  end.

(** [R.equals(a)] as a predicate. *)
Definition equals_ (a : val) : func :=
  fun args => ret (VBool (equals a (nth 0 args VUndefined))).

(** [R.whereEq(spec, testObj)] is [R.where(R.map(R.equals, spec), testObj)]. *)
Definition whereEq (spec : list (string * val)) (testObj : val) : M val :=
  where_ (map (fun kv => (fst kv, equals_ (snd kv))) spec) testObj.

End R.

(** ** Function values, Matcher objects and the heap *)

Module Obj.

Definition loc : Type := nat.

(** A value that can be called: a plain function, with the [length] it
    declares and its behaviour, or a Matcher, by address. *)
Inductive callable : Type :=
| Fn (length : nat) (f : func)
| Mat (m : loc).

(** A value handed to the library: a function or Matcher, a data value, or
    a plain object whose leaves are functions. *)
Inductive arg : Type :=
| Callable (c : callable)
| Data (v : val)
| Shape (spec : list (string * func)).

(** The entry of the [privates] WeakMap. *)
Record Privates : Type := mkPrivates {
  condition : callable;
  reducer : callable
}.

(** The function stored under a Matcher's [with] property. *)
Inductive WithImpl : Type :=
| WithChild (condition : callable)
    (* childReducer => Matcher(condition, childReducer) *)
| WithGroup (inner : WithImpl).
    (* R.pipe(getMatcherFromReducers, inner) *)

(** A Matcher: the function [reduce] with the [length] Ramda gave it
    ([arity]), its [with] property, and its entry in [privates]. *)
Record MatcherObject : Type := mkMatcher {
  reduce : func;
  arity : nat;
  with_ : WithImpl;
  privates : Privates
}.

Definition heap : Type := list MatcherObject.

(** Construction-time code: it may allocate, update a property, or throw. *)
Definition St (A : Type) : Type := heap -> result (A * heap).

Definition retS {A : Type} (a : A) : St A := fun h => Ok (a, h).
Definition failS {A : Type} (e : error) : St A := fun _ => Throw e.
Definition bindS {A B : Type} (m : St A) (k : A -> St B) : St B :=
  fun h =>
    match m h with
    | Ok (a, h') => k a h'
    | Throw e => Throw e
    end.
Definition getS : St heap := fun h => Ok (h, h).

Fixpoint mapS {A B : Type} (f : A -> St B) (l : list A) : St (list B) :=
  match l with
  | [] => retS []
  | a :: l' =>
      bindS (f a) (fun b => bindS (mapS f l') (fun bs => retS (b :: bs)))
  end.

(** A new function object. *)
Definition alloc (o : MatcherObject) : St loc :=
  fun h => Ok (List.length h, h ++ [o]).

(** [Object.defineProperty(m, 'with', { value: w })]. *)
Fixpoint set_with (m : loc) (w : WithImpl) (h : heap) : heap :=
  match h, m with
  | [], _ => []
  | o :: h', O => mkMatcher (reduce o) (arity o) w (privates o) :: h'
  | o :: h', S m' => o :: set_with m' w h'
  end.

(** Calling a value: a plain function runs, a Matcher runs its [reduce], and
    the address of no object is not callable. *)
Definition apply (h : heap) (c : callable) : func :=
  match c with
  | Fn _ f => f
  | Mat m =>
      match nth_error h m with
      | Some o => reduce o
      | None => fun _ => throw TypeError
      end
  end.

(** [c.length]. *)
Definition len (h : heap) (c : callable) : nat :=
  match c with
  | Fn n _ => n
  | Mat m =>
      match nth_error h m with
      | Some o => arity o
      | None => 0
      end
  end.

End Obj.
Export Obj.

Notation "x <-$ m ;; k" := (bindS m (fun x => k))
  (at level 61, m at next level, right associativity) : eff_scope.

(** ** util *)

Module util.

(** [typeof x === 'function']. *)
Definition isFunction (a : arg) : bool :=
  match a with
  | Callable _ | Data (VFun _) => true
  | _ => false
  end.

(** [R.is(Object)]: functions and objects, not primitives. *)
Definition isObject (a : arg) : bool :=
  match a with
  | Callable _ | Shape _ | Data (VObj _) | Data (VFun _) => true
  | Data _ => false
  end.

(** An object whose prototype's constructor is [Object] or [null]. *)
Definition isPlainObject (a : arg) : bool :=
  match a with
  | Shape _ | Data (VObj _) => true
  | _ => false
  end.

(** Modelled from the spec: [util.isUndefined], which [match.withDefault]
    calls and the [util] under src/ does not define; the spec says the
    default applies "when the first call argument is undefined". *)
Definition isUndefined (v : val) : bool := is_undefined v.

(** [callWith(...args)(f)]. *)
Definition callWith (args : list val) (f : func) : M val := f args.

(** A precondition: a predicate over the call's arguments and the message
    of its failure. *)
Definition precondition : Type := ((list arg -> bool) * string)%type.

Definition must (pred : list arg -> bool) (message : string) : precondition :=
  (pred, message).

Definition failureMessage (c : precondition) : string :=
  if snd c =? "" then "failed precondition" else snd c.

(** [preconditions(...conditions)(f)]: throws for the first condition the
    arguments fail, and calls [f] when there is none. *)
Definition preconditions {A : Type} (conditions : list precondition)
    (f : list arg -> St A) : list arg -> St A :=
  fun args =>
    match List.find (fun c => negb (fst c args)) conditions with
    | Some failedCondition => failS (Error (failureMessage failedCondition))
    | None => f args
    end.

(** A unary predicate used as a precondition tests the first argument. *)
Definition on_first (p : arg -> bool) : list arg -> bool :=
  fun args => p (hd (Data VUndefined) args).

End util.

(** ** The Matcher library *)

Module Match.
Import util.

(** [match.withDefault(defaultValue)(matcher)], for a Matcher [matcher]:
    [R.ifElse] of a unary test, a function without parameters and the
    Matcher. *)
Definition withDefault (defaultValue : val) (matcher : loc) (h : heap)
  : result (nat * func) :=
  R.ifElse
    (fun _ => DefaultPartial defaultValue matcher)
    (Some 1%Z, fun args => ret (VBool (isUndefined (nth 0 args VUndefined))))
    (Some 0%Z, fun _ => ret defaultValue)
    (Some (Z.of_nat (len h (Mat matcher))), apply h (Mat matcher)).

(** The [length] of a function value. *)
Definition fn_length (h : heap) (f : fnval) : nat :=
  match f with
  | Itself m => len h (Mat m)
  | Partial m received => len h (Mat m) - List.length received
  | NthArgPartial n received => S n - List.length received
  | DefaultPartial d m received =>
      Nat.max 1 (len h (Mat m)) - List.length received
  end.

(** Calling a function value: a function that waits for arguments adds the
    new ones to those it holds. *)
Definition fn_call (h : heap) (f : fnval) : func :=
  match f with
  | Itself m => apply h (Mat m)
  | Partial m received => fun args => apply h (Mat m) (received ++ args)
  | NthArgPartial n received => fun args => R.nthArg n (received ++ args)
  | DefaultPartial d m received =>
      fun args =>
        match withDefault d m h with
        | Ok w => snd w (received ++ args)
        | Throw e => throw e
        end
  end.

(** [x.length], as [Math.max] reads it: reading it throws on [undefined]
    and [null], and a value without a [length] gives NaN. *)
Definition length_of (h : heap) (a : arg) : result number :=
  match a with
  | Callable c => Ok (Some (Z.of_nat (len h c)))
  | Data (VFun f) => Ok (Some (Z.of_nat (fn_length h f)))
  | Data VUndefined | Data VNull => Throw TypeError
  | Data (VStr s) => Ok (Some (Z.of_nat (String.length s)))
  | Data (VObj fields) =>
      Ok (match lookup "length" fields with
          | Some v => to_number v
          | None => None
          end)
  | Data (VBool _) | Data (VNum _) => Ok None
  | Shape spec => Ok None
  end.

(** A value in call position: a function runs, and calling what is not a
    function throws. *)
Definition as_callable (h : heap) (a : arg) : callable :=
  match a with
  | Callable c => c
  | Data (VFun (Itself m)) => Mat m
  | Data (VFun f) => Fn (fn_length h f) (fn_call h f)
  | _ =>
      Fn (match length_of h a with
          | Ok (Some n) => Z.to_nat n
          | _ => 0
          end)
         (fun _ => throw TypeError)
  end.

(** [Matcher(condition, reducer = R.identity)]: a new function object
    [reduce = R.ifElse(condition, reducer, R.identity)] with its [with]
    property and its [privates] entry.  An omitted or [undefined] reducer
    takes the default.  [R.ifElse] reads the three lengths and throws when
    the longest is not an arity; the Matcher is curried to that arity, and
    with the arity 1 the function that waits for an argument is the Matcher
    itself. *)
Definition Matcher (condition : callable) (reducer : arg) : St loc :=
  fun h =>
    let reducer :=
      match reducer with
      | Data VUndefined => Callable (Fn 1 R.identity)
      | r => r
      end in
    let m := List.length h in
    match
      (n <-? length_of h reducer ;;
       R.ifElse
         (fun length received =>
            if (length =? 1)%nat then Itself m else Partial m received)
         (Some (Z.of_nat (len h condition)), apply h condition)
         (n, apply h (as_callable h reducer))
         (Some 1%Z, R.identity))
    with
    | Ok (length, reduce) =>
        alloc {| reduce := reduce;
                 arity := length;
                 with_ := WithChild condition;
                 privates := {| condition := condition;
                                reducer := as_callable h reducer |} |} h
    | Throw e => Throw e
    end.

(** [R.is(Matcher)]. *)
Definition isMatcher (a : arg) : bool :=
  match a with
  | Callable (Mat _) | Data (VFun (Itself _)) => true
  | _ => false
  end.

(** [util.getFrom(privates)]. *)
Definition getPrivates (m : loc) : St Privates :=
  fun h =>
    match nth_error h m with
    | Some o => Ok (privates o, h)
    | None => Throw TypeError
    end.

(** The address behind a value that passed [R.is(Matcher)]. *)
Definition matcher_of (a : arg) : St loc :=
  match a with
  | Callable (Mat m) | Data (VFun (Itself m)) => retS m
  | _ => failS TypeError
  end.

(** [ofMatcher]: a new Matcher with the same condition and reducer. *)
Definition ofMatcher (matcher : arg) : St loc :=
  preconditions
    [must (on_first isMatcher) "argument must be a Matcher"]
    (fun args =>
       m <-$ matcher_of (hd (Data VUndefined) args) ;;
       p <-$ getPrivates m ;;
       Matcher (condition p) (Callable (reducer p)))
    [matcher].

Definition isFunctionOrMatcher (a : arg) : bool :=
  isFunction a || isMatcher a.

Module PRECONDITIONS.
Definition isMatcherCondition : precondition :=
  must (on_first (fun a => isFunction a || isObject a))
       "condition must be an object or function".
Definition isFunctionOrMatcher : precondition :=
  must (on_first Match.isFunctionOrMatcher) "must be a function or Matcher".
End PRECONDITIONS.

(** [match]: the library export. *)
Definition match_ (condition : arg) : St loc :=
  preconditions
    [must (on_first isFunction) "argument must be a function"]
    (fun args =>
       h <-$ getS ;;
       Matcher (as_callable h (hd (Data VUndefined) args)) (Data VUndefined))
    [condition].

(** The [length] that [R.length] reads off a value, when it is a number.
    Only its sign is used ([positiveLength]): for a Matcher, and for a
    function that waits for arguments, the length is positive, and 1 stands
    for it. *)
Definition R_length (a : arg) : option Z :=
  match a with
  | Callable (Fn n _) => Some (Z.of_nat n)
  | Callable (Mat _) | Data (VFun _) => Some 1%Z
      (* R.ifElse takes the longest arity of its three functions, and
         R.identity declares one argument: at least 1; a function that
         waits for arguments waits for one at least *)
  | Data (VStr s) => Some (Z.of_nat (String.length s))
  | Data (VObj fields) =>
      match lookup "length" fields with
      | Some (VNum n) => Some n
      | _ => None
      end
  | _ => None
  end.

(** [R.pipe(R.length, R.gt(R.__, 0))] applied to the arguments: [R.length]
    is unary, so it measures the first argument; with no argument, and with
    a first argument that has no numeric length, the comparison is false. *)
Definition positiveLength (args : list arg) : bool :=
  match args with
  | [] => false
  | a :: _ =>
      match R_length a with
      | Some n => (0 <? n)%Z
      | None => false
      end
  end.

(** The reducer of [match.first]:
    [(state, ...rest) => R.pipe(R.find(...), R.ifElse(...))(reducers)].
    The conditions are called as they are stored; the Matcher that is found
    is called as any Matcher is, curried to its arity. *)
Definition first_reducer (h : heap) (reducers : list loc) : func :=
  fun args =>
    let state := nth 0 args VUndefined in
    let rest := tl args in
    found <- R.find
               (fun m =>
                  match nth_error h m with
                  | Some o => callWith (state :: rest) (apply h (condition (privates o)))
                  | None => throw TypeError
                  end)
               reducers ;;
    match found with
    | Some m => callWith (state :: rest) (apply h (Mat m))
    | None => ret state
    end.

(** [match.first(...reducers)]. *)
Definition first : list arg -> St loc :=
  preconditions
    [must positiveLength "must pass at least one argument";
     must (forallb isMatcher) "arguments must be Matchers"]
    (fun reducers =>
       ms <-$ mapS matcher_of reducers ;;
       h <-$ getS ;;
       Matcher (Fn 0 R.T) (Callable (Fn 1 (first_reducer h ms)))).

(** [match.always(reducer)]. *)
Definition always (reducer : arg) : St loc :=
  preconditions
    [PRECONDITIONS.isFunctionOrMatcher]
    (fun args => Matcher (Fn 0 R.T) (hd (Data VUndefined) args))
    [reducer].

(** [match.shape = R.when(util.isPlainObject, R.where)]: the leaves of the
    object are called as predicates, and calling a data leaf throws. *)
Definition shape (condition : arg) : arg :=
  match condition with
  | Shape spec =>
      Callable (Fn 1 (fun args => R.where_ spec (nth 0 args VUndefined)))
  | Data (VObj fields) =>
      Callable (Fn 1 (fun args =>
        R.where_ (map (fun kv => (fst kv, (fun _ => throw TypeError) : func)) fields)
                 (nth 0 args VUndefined)))
  | c => c
  end.

(** [match.object = R.when(util.isPlainObject, R.whereEq)]: the leaves of
    the object are compared with [R.equals]; a function leaf equals no
    data value. *)
Definition object_ (condition : arg) : arg :=
  match condition with
  | Data (VObj fields) =>
      Callable (Fn 1 (fun args => R.whereEq fields (nth 0 args VUndefined)))
  | Shape spec =>
      Callable (Fn 1 (fun args =>
        R.where_ (map (fun kv => (fst kv, R.F)) spec) (nth 0 args VUndefined)))
  | c => c
  end.

(** [getActionCondition(getConditionPredicate)]: the condition
    [R.pipe(R.nthArg(1), getConditionPredicate(condition))], which has the
    length 2 of [R.nthArg(1)]. *)
Definition getActionCondition (getConditionPredicate : arg -> arg)
    (condition : arg) : St arg :=
  preconditions
    [PRECONDITIONS.isMatcherCondition]
    (fun args =>
       h <-$ getS ;;
       let predicate := getConditionPredicate (hd (Data VUndefined) args) in
       retS (Callable (Fn 2 (R.pipe (R.nthArg 1) (apply h (as_callable h predicate))))))
    [condition].

Definition actionCondition : arg -> St arg := getActionCondition shape.
Definition plainActionCondition : arg -> St arg := getActionCondition object_.

(** [match.plainAction = R.pipe(match.plainActionCondition, match)]. *)
Definition plainAction (shape : arg) : St loc :=
  c <-$ plainActionCondition shape ;;
  match_ c.

(** [convertToMatcher]: a Matcher is kept, a plain function goes through
    [match.always]. *)
Definition convertToMatcher (reducer : arg) : St arg :=
  preconditions
    [must (on_first isFunctionOrMatcher) "must be a function or Matcher"]
    (fun args =>
       let r := hd (Data VUndefined) args in
       if negb (isMatcher r)
       then m <-$ always r ;; retS (Callable (Mat m))
       else retS r)
    [reducer].

(** [getMatcherFromReducers(...reducers)]. *)
Definition getMatcherFromReducers : list arg -> St loc :=
  preconditions
    [must (forallb isFunctionOrMatcher) "arguments must be functions or Matchers"]
    (fun reducers =>
       ms <-$ mapS convertToMatcher reducers ;;
       first ms).

(** Calling the function stored under a [with] property. *)
Fixpoint call_with (w : WithImpl) (args : list arg) : St loc :=
  match w with
  | WithChild condition => Matcher condition (hd (Data VUndefined) args)
  | WithGroup inner =>
      g <-$ getMatcherFromReducers args ;;
      call_with inner [Callable (Mat g)]
  end.

(** [m.with(...args)]. *)
Definition dot_with (m : loc) (args : list arg) : St loc :=
  fun h =>
    match nth_error h m with
    | Some o => call_with (with_ o) args h
    | None => Throw TypeError
    end.

(** [util.defineProperty('with', value, object)]. *)
Definition defineProperty_with (value : WithImpl) (object : loc) : St loc :=
  fun h => Ok (object, set_with object value h).

(** [match.redux(condition)]. *)
Definition redux (condition : arg) : St loc :=
  preconditions
    [PRECONDITIONS.isMatcherCondition]
    (fun args =>
       c <-$ actionCondition (hd (Data VUndefined) args) ;;
       matcher <-$ match_ c ;;
       h <-$ getS ;;
       match nth_error h matcher with
       | Some o =>
           copy <-$ ofMatcher (Callable (Mat matcher)) ;;
           defineProperty_with (WithGroup (with_ o)) copy
       | None => failS TypeError
       end)
    [condition].

(** Calling a Matcher. *)
Definition call (h : heap) (m : loc) : func := apply h (Mat m).

End Match.

(** ** lodash helpers of the tree dispatcher *)

Module Lodash.

Section OwnProperty.
Context {A B : Type}.
Variable k : string.
Variable absent : B.
Variable f : A -> B.

(** [f(o[k])] when [o] has the key [k], and [absent] otherwise. *)
Fixpoint at_key (o : list (string * A)) : B :=
  match o with
  | [] => absent
  | (k', a) :: o' => if k' =? k then f a else at_key o'
  end.
End OwnProperty.

(** The keys [_.omitBy] keeps: the predicate runs on every key in order. *)
Fixpoint omitBy (predicate : string -> result bool) (ks : list string)
  : result (list string) :=
  match ks with
  | [] => Ok []
  | k :: ks' =>
      omit <-? predicate k ;;
      kept <-? omitBy predicate ks' ;;
      Ok (if omit then kept else k :: kept)
  end.

(** [_.compact] on the results of [findReducer]: [undefined] is dropped, a
    function is kept. *)
Fixpoint compact {A : Type} (l : list (option A)) : list A :=
  match l with
  | [] => []
  | Some a :: l' => a :: compact l'
  | None :: l' => compact l'
  end.

End Lodash.

(** ** The tree dispatcher *)

Module Tree.
Import Lodash.

Section Dispatch.

(** The leaves: [findReducer] returns a leaf and never calls it. *)
Variable F : Type.

(** A reducer tree, in the shape the source documents: an object whose
    properties (the names of action properties) hold objects whose
    properties (the action values) hold subtrees, with functions at the
    leaves; the place of a subtree may also hold [undefined] or [null].  A
    tree in which a property name holds something else than an object is
    not of this type. *)
Inductive tree : Type :=
| TUndefined
| TNull
| TFun (f : F)
| TNode (props : list (string * list (string * tree))).

Definition is_undefined_tree (t : tree) : bool :=
  match t with TUndefined => true | _ => false end.

(** [reducerTree[key][actionValue]], on own properties: what the object
    under [key] inherits (a [constructor], a [toString], ...) is not
    modelled, and the properties below that depend on it ask for
    [own_reads]. *)
Definition entry (props : list (string * list (string * tree)))
    (key actionValue : string) : tree :=
  at_key key TUndefined (at_key actionValue TUndefined (fun t => t)) props.

(** The predicate handed to [_.omitBy]: [true] when [key] cannot lead to a
    reducer for [action]. *)
Definition omitted (props : list (string * list (string * tree)))
    (action : val) (key : string) : result bool :=
  actionValue <-? get action key ;;
  if is_undefined actionValue then Ok true
  else if is_undefined_tree (entry props key (to_key actionValue)) then Ok true
  else Ok false.

Definition ambiguous : error := Error "More than one reducer matches this action.".

Fixpoint findReducer (reducerTree : tree) (action : val) {struct reducerTree}
  : result (option F) :=
  match reducerTree with
  | TFun f => Ok (Some f)
  | TUndefined | TNull => Ok None
  | TNode props =>
      matchesCurrentLevel <-? omitBy (omitted props action) (keys props) ;;
      recursiveMatches <-?
        mapR (fun match_ =>
                actionValue <-? get action match_ ;;
                at_key match_ (Ok None)
                  (at_key (to_key actionValue) (Ok None)
                     (fun t => findReducer t action))
                  props)
             matchesCurrentLevel ;;
      let recursiveMatches := compact recursiveMatches in
      if (1 <? List.length recursiveMatches)%nat then Throw ambiguous
      else if (List.length recursiveMatches =? 0)%nat then Ok None
      else Ok (hd_error recursiveMatches)
  end.

(** The leaves that match an action: those under a path of the tree every
    step of which is a property of the action with its value. *)
Fixpoint matching (reducerTree : tree) (action : val) {struct reducerTree}
  : list F :=
  match reducerTree with
  | TFun f => [f]
  | TUndefined | TNull => []
  | TNode props =>
      flat_map
        (fun key =>
           match get action key with
           | Ok actionValue =>
               if is_undefined actionValue then []
               else at_key key []
                      (at_key (to_key actionValue) []
                         (fun t => matching t action))
                      props
           | Throw _ => []
           end)
        (keys props)
  end.

(** Induction on a tree, with the property at every subtree of a node. *)
Section Induction.
Variable P : tree -> Prop.
Hypothesis P_undefined : P TUndefined.
Hypothesis P_null : P TNull.
Hypothesis P_fun : forall f, P (TFun f).
Hypothesis P_node : forall props,
  Forall (fun kv => Forall (fun vt => P (snd vt)) (snd kv)) props ->
  P (TNode props).

Fixpoint tree_induction (t : tree) : P t :=
  match t with
  | TUndefined => P_undefined
  | TNull => P_null
  | TFun f => P_fun f
  | TNode props =>
      P_node props
        ((fix over_props ps : Forall (fun kv => Forall (fun vt => P (snd vt)) (snd kv)) ps :=
            match ps with
            | [] => Forall_nil _
            | kv :: ps' =>
                Forall_cons kv
                  ((fix over_values vs : Forall (fun vt => P (snd vt)) vs :=
                      match vs with
                      | [] => Forall_nil _
                      | vt :: vs' =>
                          Forall_cons vt (tree_induction (snd vt)) (over_values vs')
                      end) (snd kv))
                  (over_props ps')
            end) props)
  end.
End Induction.

End Dispatch.

Arguments TUndefined {F}.
Arguments TNull {F}.
Arguments TFun {F} f.
Arguments TNode {F} props.
Arguments findReducer {F} reducerTree action.
Arguments matching {F} reducerTree action.
Arguments entry {F} props key actionValue.
Arguments omitted {F} props action key.
Arguments is_undefined_tree {F} t.
Arguments tree_induction {F} P _ _ _ _ t.

(** What [combineReducers] is handed: a data value, or an object of
    reducer functions. *)
Inductive mapping : Type :=
| MData (v : val)
| MReducers (reducers : list (string * func)).

Definition falsy (reducers : mapping) : bool :=
  match reducers with
  | MData v => negb (truthy v)
  | MReducers _ => false
  end.

(** [state && state[key]]. *)
Definition slice (state : val) (key : string) : M val :=
  if truthy state then lift (get state key) else ret state.

(** [_.mapValues(reducers, iteratee)]: one call per own key, in order; a
    value with no own key maps to the empty object, and calling a leaf that
    is data throws.  A function value stands with the values that have no
    own key: the [with] of a Matcher is not modelled as a key. *)
Definition mapValues (reducers : mapping)
    (iteratee : func -> string -> M val) : M val :=
  match reducers with
  | MReducers rs =>
      fields <- mapM (fun kf => v <- iteratee (snd kf) (fst kf) ;; ret (fst kf, v)) rs ;;
      ret (VObj fields)
  | MData (VObj (_ :: _)) => throw TypeError
  | MData (VStr (String _ _)) => throw TypeError
  | MData _ => ret (VObj [])
  end.

Definition combineReducers (reducers : mapping) : result (val -> val -> M val) :=
  if falsy reducers
  then Throw (Error "You must supply reducers to combineReducers()")
  else Ok (fun state action =>
             mapValues reducers
               (fun sReducer key =>
                  s <- slice state key ;;
                  sReducer [s; action; state])).

End Tree.

(** ** Vocabulary of the properties *)

Module Spec.
Import util Match.



(** The value is a function of the heap: a plain function, or the address
    of a Matcher that exists. *)
Definition defined (h : heap) (c : callable) : bool :=
  match c with
  | Fn _ _ => true
  | Mat m => (m <? List.length h)%nat
  end.

(** The arity of [Matcher(c, t)]: the longest of the lengths of [c], [t]
    and [R.identity]. *)
Definition arity_of (h : heap) (c t : callable) : nat :=
  Nat.max (len h c) (Nat.max (len h t) 1).

(** The condition returns a falsy, respectively a truthy, value. *)
Definition falsy_at (c : func) (args : list val) : Prop :=
  exists v, outcome (c args) = Ok v /\ truthy v = false.
Definition truthy_at (c : func) (args : list val) : Prop :=
  exists v, outcome (c args) = Ok v /\ truthy v = true.



(** The promotion of the transforms handed to the [with] of [match.redux]:
    a Matcher is kept as it is, a plain function goes through
    [match.always]. *)
Definition promote (t : arg) : St arg :=
  if isMatcher t then retS t
  else m <-$ always t ;; retS (Callable (Mat m)).

(** The predicate that [match.redux(c)] applies to the action: [c] itself
    when it is a function, [R.where(c)] when it is a plain object. *)
Definition action_predicate (h : heap) (c : arg) : func :=
  apply h (as_callable h (shape c)).

(** [undefined] and [null], the values without properties. *)
Definition nullish (v : val) : bool :=
  match v with VUndefined | VNull => true | _ => false end.

(** What the dispatcher owes for the leaves that match: no leaf,
    [undefined]; one leaf, that leaf; more, the ambiguity error. *)
Definition verdict {F : Type} (leaves : list F) : result (option F) :=
  match leaves with
  | [] => Ok None
  | [f] => Ok (Some f)
  | _ :: _ :: _ => Throw Tree.ambiguous
  end.

(** The value of [state && state[key]]. *)
Definition slice_of (state : val) (key : string) : val :=
  if truthy state
  then match get state key with Ok v => v | Throw _ => VUndefined end
  else state.

(** The arguments [combineReducers] owes the reducer under [key]. *)
Definition reducer_args (state action : val) (key : string) : list val :=
  [slice_of state key; action; state].

(** The subtree that a key of a node leads to for an action: the entry of
    the node under the key and the action's value for it, when the action
    has the key. *)
Definition branch {F : Type} (props : list (string * list (string * Tree.tree F)))
    (action : val) (key : string) : Tree.tree F :=
  match get action key with
  | Ok actionValue =>
      if is_undefined actionValue then Tree.TUndefined
      else Tree.entry props key (to_key actionValue)
  | Throw _ => Tree.TUndefined
  end.

End Spec.

(** ** The rest of the tree dispatcher: compose, reducer and its registry *)

Module Reducer.
Import Lodash Tree.

(** [_.reduce(reducers, iteratee, state)] with the iteratee of [compose]:
    each reducer receives the current state and the call's arguments after
    the first. *)
Fixpoint reduce_with (rest : list val) (reducers : list func) (currentState : val)
  : M val :=
  match reducers with
  | [] => ret currentState
  | currentReducer :: reducers' =>
      next <- currentReducer (currentState :: rest) ;;
      reduce_with rest reducers' next
  end.

(** [compose(...reducers)]. *)
Definition compose (reducers : list func) : func :=
  fun topLevelArguments =>
    reduce_with (tl topLevelArguments) reducers (nth 0 topLevelArguments VUndefined).

(** The function [reducer(defaultState)] returns, over the registry it
    closes on: [function (state = defaultState, action, ...args)]. *)
Definition innerReducer (defaultState : val) (reducers : tree func) : func :=
  fun arguments =>
    let state :=
      match nth 0 arguments VUndefined with
      | VUndefined => defaultState
      | state => state
      end in
    let action := nth 1 arguments VUndefined in
    let args := skipn 2 arguments in
    actionReducer <- lift (findReducer reducers action) ;;
    match actionReducer with
    | None => ret state
    | Some f => f (state :: action :: args)
    end.

(** [object[key] = value]: the key keeps its place, a new key goes last. *)
Fixpoint assignValue {A : Type} (key : string) (value : A)
    (object : list (string * A)) : list (string * A) :=
  match object with
  | [] => [(key, value)]
  | (k, a) :: object' =>
      if k =? key then (k, value) :: object'
      else (k, a) :: assignValue key value object'
  end.

Section Merge.
Variable F : Type.

(** lodash's [assignMergeValue]: [undefined] is assigned only to a key the
    object lacks. *)
Definition assignMergeValue (key : string) (value : tree F)
    (object : list (string * tree F)) : list (string * tree F) :=
  match value, lookup key object with
  | TUndefined, Some _ => object
  | _, _ => assignValue key value object
  end.

Section Loops.
Variable mergeDeep : tree F -> tree F -> tree F.

(** [baseMerge] over the entries of an object of subtrees. *)
Fixpoint mergeValues (source object : list (string * tree F))
  : list (string * tree F) :=
  match source with
  | [] => object
  | (key, srcValue) :: source' =>
      let objValue :=
        match lookup key object with Some t => t | None => TUndefined end in
      mergeValues source' (assignMergeValue key (mergeDeep objValue srcValue) object)
  end.

(** [baseMerge] over the properties of a node: the object under a property
    is merged into, or into a new object when the node lacks the
    property. *)
Fixpoint mergeProps (source object : list (string * list (string * tree F)))
  : list (string * list (string * tree F)) :=
  match source with
  | [] => object
  | (key, srcValue) :: source' =>
      let objValue :=
        match lookup key object with Some o => o | None => [] end in
      mergeProps source' (assignValue key (mergeValues srcValue objValue) object)
  end.
End Loops.

(** lodash's [baseMergeDeep], as the value it assigns: a node is merged
    into the node already there, or into a new object when what is there is
    no object or is a function (lodash 4.17.5 and later; earlier releases
    keep a function that is there); a function or [null] replaces what is
    there. *)
Fixpoint baseMergeDeep (objValue srcValue : tree F) {struct srcValue} : tree F :=
  match srcValue with
  | TNode source =>
      TNode (mergeProps (fun o s => baseMergeDeep o s) source
               (match objValue with TNode object => object | _ => [] end))
  | _ => srcValue
  end.

(** [_.merge(object, source)] on a node [object]: a source that is
    [undefined], [null] or a function has nothing to merge. *)
Definition merge (object source : tree F) : tree F :=
  match object, source with
  | TNode _, TNode _ => baseMergeDeep object source
  | _, _ => object
  end.

End Merge.

Arguments assignMergeValue {F} key value object.
Arguments mergeValues {F} mergeDeep source object.
Arguments mergeProps {F} mergeDeep source object.
Arguments baseMergeDeep {F} objValue srcValue.
Arguments merge {F} object source.

(** What [reducer(defaultState)] closes on: the default state and the
    registry [reducers], which [add] updates. *)
Record Registry : Type := mkRegistry {
  defaultState : val;
  reducers : tree func
}.

(** [reducer(defaultState)]: the registry starts as [{}]. *)
Definition reducer (defaultState : val) : Registry :=
  {| defaultState := defaultState; reducers := TNode [] |}.

(** [innerReducer.add(reducerTree = {})]. *)
Definition add (r : Registry) (reducerTree : tree func) : Registry :=
  {| defaultState := defaultState r;
     reducers := merge (reducers r) reducerTree |}.

(** Calling the reducer. *)
Definition run (r : Registry) : func :=
  innerReducer (defaultState r) (reducers r).

End Reducer.

(** ** Vocabulary of the further properties *)

Module Paths.
Import Lodash Tree.

(** A path: the (property, value) steps from the root of a tree. *)
Definition path : Type := list (string * string).

(** The function at the end of a path. *)
Fixpoint leaf_at {F : Type} (t : tree F) (p : path) : option F :=
  match p, t with
  | [], TFun f => Some f
  | (key, value) :: p', TNode props => leaf_at (entry props key value) p'
  | _, _ => None
  end.

(** The action has every property of the path, with the value of the
    path. *)
Definition satisfies (action : val) (p : path) : bool :=
  forallb
    (fun step =>
       match get action (fst step) with
       | Ok actionValue =>
           negb (is_undefined actionValue) && (to_key actionValue =? snd step)
       | Throw _ => false
       end)
    p.

(** The value of a property, [undefined] for a missing one. *)
Definition prop (v : val) (k : string) : val :=
  match get v k with Ok x => x | Throw _ => VUndefined end.

(** The property names of a tree, at every depth. *)
Fixpoint tree_keys {F : Type} (t : tree F) : list string :=
  match t with
  | TNode props =>
      flat_map
        (fun kv => fst kv :: flat_map (fun vt => tree_keys (snd vt)) (snd kv))
        props
  | _ => []
  end.

(** No key is listed twice. *)
Fixpoint distinct (ks : list string) : bool :=
  match ks with
  | [] => true
  | k :: ks' => negb (existsb (String.eqb k) ks') && distinct ks'
  end.

(** The tree stands for JS objects: no object of it, at any depth, lists a
    key twice. *)
Fixpoint well_formed {F : Type} (t : tree F) : bool :=
  match t with
  | TNode props =>
      distinct (keys props) &&
      forallb
        (fun kv =>
           distinct (keys (snd kv)) &&
           forallb (fun vt => well_formed (snd vt)) (snd kv))
        props
  | _ => true
  end.

(** The tree holds nothing on the path: it ends, before the path does, at
    a missing or [undefined] entry. *)
Fixpoint untouched {F : Type} (t : tree F) (p : path) : bool :=
  match p, t with
  | _, TUndefined => true
  | (key, value) :: p', TNode props => untouched (entry props key value) p'
  | _, _ => false
  end.

(** [o[k]], [undefined] for a missing key. *)
Definition value_at {F : Type} (k : string) (o : list (string * tree F)) : tree F :=
  match lookup k o with Some t => t | None => TUndefined end.

(** What a key holds once [_.merge] has merged the source value [s] onto
    the value [o] it held: an [undefined] source value changes nothing. *)
Definition merged {F : Type} (o s : tree F) : tree F :=
  match s with
  | TUndefined => o
  | _ => Reducer.baseMergeDeep o s
  end.

(** The heap [h'] holds every object of [h], at the same address. *)
Definition extends (h h' : heap) : Prop := exists new, h' = h ++ new.

(** The names of the properties that every object inherits from
    [Object.prototype]. *)
Definition Object_prototype : list string :=
  ["constructor"; "hasOwnProperty"; "isPrototypeOf"; "propertyIsEnumerable";
   "toLocaleString"; "toString"; "valueOf"; "__proto__";
   "__defineGetter__"; "__defineSetter__"; "__lookupGetter__"; "__lookupSetter__"].

Definition inherited (k : string) : bool :=
  existsb (String.eqb k) Object_prototype.

(** The values that [to_key] writes as JavaScript does: strings, booleans,
    [null] and the integers that JavaScript represents exactly. *)
Definition keyable (v : val) : bool :=
  match v with
  | VStr _ | VBool _ | VNull => true
  | VNum n => (Z.abs n <=? 9007199254740991)%Z
  | _ => false
  end.

(** Dispatching [action] on the tree [t] reads own properties only: the
    action is an object, no property name of the tree is a name that every
    object inherits, and the value the action has under such a name, when
    it has one, is written as JavaScript writes it and is no inherited name
    either.  A tree without property names reads nothing. *)
Definition own_reads {F : Type} (t : tree F) (action : val) : bool :=
  forallb
    (fun k =>
       match action with
       | VObj _ =>
           negb (inherited k) &&
           (is_undefined (prop action k) ||
            keyable (prop action k) && negb (inherited (to_key (prop action k))))
       | _ => false
       end)
    (tree_keys t).

End Paths.

(** * Properties *)

Import util Match.

(** ** Calls *)

Lemma bind_ret {A B : Type} (a : A) (k : A -> M B) : bind (ret a) k = k a.
Proof. unfold bind, ret. destruct (k a) as [t r]. reflexivity. Qed.

Lemma bind_value {A B : Type} (t : list event) (a : A) (k : A -> M B) :
  bind (t, Ok a) k = (t ++ trace (k a), outcome (k a)).
Proof. unfold bind, trace, outcome. destruct (k a) as [t' r]. reflexivity. Qed.

Lemma call_eta {A : Type} (m : M A) : m = (trace m, outcome m).
Proof. destruct m; reflexivity. Qed.

Lemma ifElse_value (c t f : func) (args : list val) (tc : list event) (v : val) :
  c args = (tc, Ok v) ->
  R.ifElse_call c t f args =
    if truthy v then (tc ++ trace (t args), outcome (t args))
    else (tc ++ trace (f args), outcome (f args)).
Proof.
  intros Hc. unfold R.ifElse_call. rewrite Hc, bind_value.
  destruct (truthy v); reflexivity.
Qed.

(** ** Currying *)

Lemma curryN_full (n : nat) (w : list val -> fnval) (fn : func) (args : list val) :
  n <= List.length args -> R.curryN n w fn args = fn args.
Proof.
  intros H. unfold R.curryN. apply Nat.leb_le in H. rewrite H. reflexivity.
Qed.

Lemma curryN_short (n : nat) (w : list val -> fnval) (fn : func) (args : list val) :
  List.length args < n -> R.curryN n w fn args = ([], Ok (VFun (w args))).
Proof.
  intros H. unfold R.curryN. apply Nat.leb_gt in H. rewrite H. reflexivity.
Qed.

Lemma arity_max (a b : nat) :
  R.arity_ (Math_max (Some (Z.of_nat a)) (Math_max (Some (Z.of_nat b)) (Some 1%Z))) =
  if (Nat.max a (Nat.max b 1) <=? 10)%nat then Ok (Nat.max a (Nat.max b 1))
  else Throw R.arity_error.
Proof.
  cbn [Math_max R.arity_].
  replace (Z.max (Z.of_nat a) (Z.max (Z.of_nat b) 1))
    with (Z.of_nat (Nat.max a (Nat.max b 1))) by lia.
  rewrite Nat2Z.id.
  destruct (Nat.leb_spec (Nat.max a (Nat.max b 1)) 10) as [H | H].
  - replace (0 <=? Z.of_nat (Nat.max a (Nat.max b 1)))%Z with true
      by (symmetry; apply Z.leb_le; lia).
    replace (Z.of_nat (Nat.max a (Nat.max b 1)) <=? 10)%Z with true
      by (symmetry; apply Z.leb_le; lia).
    reflexivity.
  - replace (Z.of_nat (Nat.max a (Nat.max b 1)) <=? 10)%Z with false
      by (symmetry; apply Z.leb_gt; lia).
    rewrite andb_false_r. reflexivity.
Qed.

(** ** The heap only grows *)

Lemma nth_error_alloc (h : heap) (o : MatcherObject) :
  nth_error (h ++ [o]) (List.length h) = Some o.
Proof.
  rewrite nth_error_app2 by lia. rewrite Nat.sub_diag. reflexivity.
Qed.

Lemma nth_error_old (h : heap) (o : MatcherObject) (l : loc) :
  l < List.length h -> nth_error (h ++ [o]) l = nth_error h l.
Proof. intros Hl. apply nth_error_app1. exact Hl. Qed.

Lemma defined_grow (h new : heap) (c : callable) :
  Spec.defined h c = true ->
  Spec.defined (h ++ new) c = true /\
  apply (h ++ new) c = apply h c /\
  len (h ++ new) c = len h c.
Proof.
  destruct c as [n f | j]; [intros _; repeat split|].
  cbn [Spec.defined apply len]. intros Hj. apply Nat.ltb_lt in Hj.
  rewrite (nth_error_app1 h new Hj). repeat split.
  apply Nat.ltb_lt. rewrite length_app. lia.
Qed.

Lemma arity_of_grow (h new : heap) (c t : callable) :
  Spec.defined h c = true -> Spec.defined h t = true ->
  Spec.arity_of (h ++ new) c t = Spec.arity_of h c t.
Proof.
  intros Hc Ht. unfold Spec.arity_of.
  rewrite (proj2 (proj2 (defined_grow h new c Hc))).
  rewrite (proj2 (proj2 (defined_grow h new t Ht))). reflexivity.
Qed.

(** ** Matcher *)

Lemma Matcher_default (c : callable) (h : heap) :
  Matcher c (Data VUndefined) h = Matcher c (Callable (Fn 1 R.identity)) h.
Proof. reflexivity. Qed.

Lemma Matcher_alloc (c t : callable) (h : heap) :
  Spec.arity_of h c t <= 10 ->
  exists o,
    Matcher c (Callable t) h = Ok (List.length h, h ++ [o]) /\
    with_ o = WithChild c /\
    privates o = {| condition := c; reducer := t |} /\
    arity o = Spec.arity_of h c t /\
    (forall args, Spec.arity_of h c t <= List.length args ->
       reduce o args = R.ifElse_call (apply h c) (apply h t) R.identity args) /\
    (forall args, List.length args < Spec.arity_of h c t ->
       reduce o args =
         ([], Ok (VFun (if (Spec.arity_of h c t =? 1)%nat then Itself (List.length h)
                        else Partial (List.length h) args)))).
Proof.
  intros Hn. unfold Matcher, R.ifElse. cbn [length_of bindR fst snd as_callable].
  rewrite arity_max. fold (Spec.arity_of h c t).
  apply Nat.leb_le in Hn. rewrite Hn. cbn [bindR].
  eexists. split; [reflexivity|]. cbn [with_ privates arity reduce].
  repeat split.
  - intros args Ha. apply curryN_full. exact Ha.
  - intros args Ha. apply curryN_short. exact Ha.
Qed.

Lemma Matcher_too_long (c t : callable) (h : heap) :
  10 < Spec.arity_of h c t -> Matcher c (Callable t) h = Throw R.arity_error.
Proof.
  intros Hn. unfold Matcher, R.ifElse. cbn [length_of bindR fst snd as_callable].
  rewrite arity_max. fold (Spec.arity_of h c t).
  apply Nat.leb_gt in Hn. rewrite Hn. reflexivity.
Qed.

Lemma Matcher_ok_inv (c : callable) (r : arg) (h h' : heap) (m : loc) :
  Matcher c r h = Ok (m, h') ->
  exists o, m = List.length h /\ h' = h ++ [o] /\ with_ o = WithChild c.
Proof.
  unfold Matcher.
  destruct (bindR _ _) as [[n rd] | e]; [|discriminate].
  intros [= <- <-]. eexists. repeat split.
Qed.

Lemma match_function (c : callable) (h : heap) :
  match_ (Callable c) h = Matcher c (Data VUndefined) h.
Proof. reflexivity. Qed.

Lemma match_not_function (a : arg) (h : heap) :
  isFunction a = false ->
  match_ a h = Throw (Error "argument must be a function").
Proof.
  intros Ha. unfold match_, preconditions, on_first, must. cbn.
  rewrite Ha. reflexivity.
Qed.

Lemma arity_of_default (h : heap) (c : callable) :
  Spec.arity_of h c (Fn 1 R.identity) = Nat.max (len h c) 1.
Proof. unfold Spec.arity_of. cbn [len]. lia. Qed.

(** ** C1 *)




(** ** C3 *)

(** C3, as the claim states it, fails: the empty object literal is a plain
    structural object, and [match] throws on it. *)
Lemma match_rejects_plain_object :
  isPlainObject (Data (VObj [])) = true /\
  isFunction (Data (VObj [])) = false /\
  match_ (Data (VObj [])) [] = Throw (Error "argument must be a function").
Proof. repeat split. Qed.

(** C3, amended. For every value [c]: [match(c)] throws "argument must be
    a function" exactly when [c] is not a function (a plain structural
    object included).  When [c] is a function that declares at most ten
    parameters, [match(c)] returns a new Matcher and leaves every existing
    object as it was; when it declares more, Ramda's arity check throws
    another error.  Either failure is the result of the construction
    itself: no Matcher exists to be invoked. *)
Theorem match_accepts_functions_only (c : arg) (h : heap) :
  (isFunction c = false ->
     match_ c h = Throw (Error "argument must be a function")) /\
  (isFunction c = true -> len h (as_callable h c) <= 10 ->
     exists o, match_ c h = Ok (List.length h, h ++ [o])) /\
  (isFunction c = true -> 10 < len h (as_callable h c) ->
     exists e, match_ c h = Throw e /\ e <> Error "argument must be a function").
Proof.
  assert (Hm : isFunction c = true ->
               match_ c h = Matcher (as_callable h c) (Data VUndefined) h).
  { intros Hc. unfold match_, preconditions, on_first, must. cbn [List.find fst hd].
    rewrite Hc. reflexivity. }
  split; [apply match_not_function|split].
  - intros Hc Hn. rewrite (Hm Hc), Matcher_default.
    destruct (Matcher_alloc (as_callable h c) (Fn 1 R.identity) h) as (o & E & _).
    { rewrite arity_of_default. lia. }
    exists o. exact E.
  - intros Hc Hn. exists R.arity_error. split; [|discriminate].
    rewrite (Hm Hc), Matcher_default. apply Matcher_too_long.
    rewrite arity_of_default. lia.
Qed.

Lemma match_accepts_functions_only_witness :
  (exists o, match_ (Callable (Fn 1 R.identity)) [] = Ok (0, [o])) /\
  match_ (Data (VStr "string")) [] = Throw (Error "argument must be a function") /\
  match_ (Shape [("foo", R.T)]) [] = Throw (Error "argument must be a function") /\
  (exists e, match_ (Callable (Fn 11 R.T)) [] = Throw e /\
             e <> Error "argument must be a function").
Proof.
  split; [|split; [|split]].
  - apply (proj1 (proj2 (match_accepts_functions_only (Callable (Fn 1 R.identity)) [])));
      [reflexivity|cbn; lia].
  - exact (proj1 (match_accepts_functions_only (Data (VStr "string")) []) eq_refl).
  - exact (proj1 (match_accepts_functions_only (Shape [("foo", R.T)]) []) eq_refl).
  - apply (proj2 (proj2 (match_accepts_functions_only (Callable (Fn 11 R.T)) [])));
      [reflexivity|cbn; lia].
Defined.

(** ** C9 *)

(** C9, as the claim states it, fails on the Matchers of [match.redux],
    whose [with] is replaced: [with(t)] stores, as the transform of the new
    Matcher, not [t] but the Matcher that [match.first] makes of it, which
    called with one argument returns a function where [t] runs; and
    [with()] throws instead of taking the identity. *)
Lemma redux_with_is_not_a_functional_update :
  exists rx h1 m h2 o,
    redux (Callable (Fn 0 R.T)) [] = Ok (rx, h1) /\
    dot_with rx [Callable (Fn 2 (spy "t" (fun _ => VStr "changed")))] h1 = Ok (m, h2) /\
    nth_error h2 m = Some o /\
    reducer (privates o) = Mat 3 /\
    apply h2 (reducer (privates o)) [VNum 1] = ([], Ok (VFun (Partial 2 [VNum 1]))) /\
    spy "t" (fun _ => VStr "changed") [VNum 1] =
      ([Called "t" [VNum 1]], Ok (VStr "changed")) /\
    dot_with rx [] h1 = Throw (Error "must pass at least one argument").
Proof.
  do 5 eexists.
  split; [cbv; reflexivity|]. split; [cbv; reflexivity|].
  split; [cbv; reflexivity|]. split; [reflexivity|].
  split; [cbv; reflexivity|]. split; [reflexivity|]. cbv. reflexivity.
Qed.

(** C9, amended. For every Matcher [M] with condition [c] whose [with] is
    the one [Matcher] installed (a Matcher of [match], [match.first],
    [match.always], [match.plainAction] or [with], not of [match.redux])
    and every transform [t]: when the longest of [c], [t] and [R.identity]
    declares at most ten parameters, [M.with(t)] returns a Matcher at a new
    address whose [privates] hold the condition [c] and the reducer [t] and
    which, called with its arity of arguments or more, is
    [R.ifElse(c, t, R.identity)] on them; every object that existed, [M] and
    a Matcher [c] among them, is left as it was, and [M] called afterwards
    behaves as before.  When it declares more, [M.with(t)] throws and
    nothing is made. *)
Theorem with_is_functional_update
    (h : heap) (m : loc) (o : MatcherObject) (t : callable) :
  nth_error h m = Some o ->
  with_ o = WithChild (condition (privates o)) ->
  (Spec.arity_of h (condition (privates o)) t <= 10 ->
   exists o',
     dot_with m [Callable t] h = Ok (List.length h, h ++ [o']) /\
     List.length h <> m /\
     privates o' = {| condition := condition (privates o); reducer := t |} /\
     arity o' = Spec.arity_of h (condition (privates o)) t /\
     (forall args, arity o' <= List.length args ->
        reduce o' args =
        R.ifElse_call (apply h (condition (privates o))) (apply h t) R.identity args) /\
     (forall l, l < List.length h -> nth_error (h ++ [o']) l = nth_error h l) /\
     nth_error (h ++ [o']) m = Some o /\
     call (h ++ [o']) m = call h m) /\
  (10 < Spec.arity_of h (condition (privates o)) t ->
   exists e, dot_with m [Callable t] h = Throw e).
Proof.
  intros Hm Hw.
  assert (Hlt : m < List.length h) by (apply nth_error_Some; rewrite Hm; discriminate).
  split.
  - intros Hn.
    destruct (Matcher_alloc (condition (privates o)) t h Hn)
      as (o' & E & _ & Hp & Ha & Hfull & _).
    exists o'. split.
    { unfold dot_with. rewrite Hm, Hw. cbn [call_with hd]. exact E. }
    split; [lia|]. split; [exact Hp|]. split; [exact Ha|].
    split; [intros args Hargs; apply Hfull; rewrite <- Ha; exact Hargs|].
    split; [intros l Hl; apply nth_error_old; exact Hl|].
    split; [rewrite nth_error_old by exact Hlt; exact Hm|].
    unfold call, apply. rewrite nth_error_old by exact Hlt. reflexivity.
  - intros Hn. exists R.arity_error. unfold dot_with. rewrite Hm, Hw.
    cbn [call_with hd]. apply Matcher_too_long. exact Hn.
Qed.

Lemma with_is_functional_update_witness :
  exists h o o',
    match_ (Callable (Fn 0 R.T)) [] = Ok (0, h) /\
    nth_error h 0 = Some o /\
    dot_with 0 [Callable (Fn 1 (R.always (VNum 7)))] h = Ok (1, h ++ [o']) /\
    nth_error (h ++ [o']) 0 = Some o /\
    call (h ++ [o']) 0 [VNum 1] = ([], Ok (VNum 1)) /\
    call (h ++ [o']) 1 [VNum 1] = ([], Ok (VNum 7)).
Proof.
  destruct (Matcher_alloc (Fn 0 R.T) (Fn 1 R.identity) [])
    as (o & E & Hw & Hp & _ & Hfull & _); [cbn; lia|].
  assert (Hw' : with_ o = WithChild (condition (privates o)))
    by (rewrite Hw, Hp; reflexivity).
  destruct (proj1 (with_is_functional_update [o] 0 o (Fn 1 (R.always (VNum 7)))
                     eq_refl Hw'))
    as (o' & D & _ & _ & Ha' & Hfull' & _ & Hkeep & Hcall);
    [rewrite Hp; cbn; lia|].
  exists [o], o, o'. split; [exact E|]. split; [reflexivity|].
  split; [exact D|]. split; [exact Hkeep|]. split.
  - rewrite Hcall. unfold call, apply. cbn [nth_error].
    rewrite Hfull by (cbn; lia). reflexivity.
  - unfold call, apply. cbn [app nth_error].
    rewrite Hfull' by (rewrite Ha', Hp; cbn; lia). rewrite Hp. reflexivity.
Defined.

(** ** C7 *)

Lemma arity_nat (n : nat) :
  R.arity_ (Some (Z.of_nat n)) =
  if (n <=? 10)%nat then Ok n else Throw R.arity_error.
Proof.
  cbn [R.arity_]. rewrite Nat2Z.id.
  destruct (Nat.leb_spec n 10) as [H | H].
  - replace (0 <=? Z.of_nat n)%Z with true by (symmetry; apply Z.leb_le; lia).
    replace (Z.of_nat n <=? 10)%Z with true by (symmetry; apply Z.leb_le; lia).
    reflexivity.
  - replace (Z.of_nat n <=? 10)%Z with false by (symmetry; apply Z.leb_gt; lia).
    rewrite andb_false_r. reflexivity.
Qed.

(** C7, as the claim states it, fails: with a Matcher that declares two
    parameters, [withDefault(d)(M)(undefined)] does not return [d]: it
    returns a function that waits for the second argument. *)
Lemma withDefault_under_applied :
  exists m h w,
    match_ (Callable (Fn 2 (spy "condition" (fun _ => VBool true)))) [] = Ok (m, h) /\
    withDefault (VStr "default") m h = Ok w /\
    snd w [VUndefined] =
      ([], Ok (VFun (DefaultPartial (VStr "default") m [VUndefined]))).
Proof.
  do 3 eexists. split; [cbv; reflexivity|]. split; [cbv; reflexivity|].
  cbv. reflexivity.
Qed.

(** C7, amended. For every default [d] and Matcher [M] (a Matcher declares
    ten parameters at most), [withDefault(d)(M)] is a function of the arity
    of [M], and for remaining arguments [rest]
    that, with the first, make up that arity at least:
    [withDefault(d)(M)(undefined, ...rest)] returns [d] with an empty trace,
    so neither the condition nor the transform of [M] runs; with a first
    argument [x] that is not [undefined] the call is [M(x, ...rest)].
    Called with fewer arguments it runs nothing and returns a function. *)
Theorem withDefault_call (d : val) (m : loc) (h : heap) (o : MatcherObject) :
  nth_error h m = Some o ->
  arity o <= 10 ->
  exists w,
    withDefault d m h = Ok (Nat.max 1 (arity o), w) /\
    (forall rest, arity o <= S (List.length rest) ->
       w (VUndefined :: rest) = ([], Ok d)) /\
    (forall x rest, arity o <= S (List.length rest) ->
       is_undefined x = false ->
       w (x :: rest) = call h m (x :: rest)) /\
    (forall args, List.length args < Nat.max 1 (arity o) ->
       w args = ([], Ok (VFun (DefaultPartial d m args)))).
Proof.
  intros Hm Hn. unfold withDefault, R.ifElse. cbn [fst snd Math_max len].
  rewrite Hm.
  replace (Z.max 1 (Z.max 0 (Z.of_nat (arity o))))
    with (Z.of_nat (Nat.max 1 (arity o))) by lia.
  rewrite arity_nat.
  replace (Nat.max 1 (arity o) <=? 10)%nat with true
    by (symmetry; apply Nat.leb_le; lia).
  cbn [bindR]. eexists. split; [reflexivity|].
  split; [|split].
  - intros rest Hr. rewrite curryN_full by (cbn [List.length]; lia). reflexivity.
  - intros x rest Hr Hx. rewrite curryN_full by (cbn [List.length]; lia).
    unfold R.ifElse_call, isUndefined. cbn [nth]. rewrite Hx, bind_ret.
    cbn [truthy]. unfold call. reflexivity.
  - intros args Ha. apply curryN_short. exact Ha.
Qed.

Lemma withDefault_call_witness :
  exists m h w,
    (m0 <-$ match_ (Callable (Fn 0 (spy "condition" (fun _ => VBool true)))) ;;
     dot_with m0 [Callable (Fn 1 (spy "reducer" (fun a => nth 0 a VUndefined)))]) []
      = Ok (m, h) /\
    withDefault (VStr "default") m h = Ok (1, w) /\
    w [VUndefined] = ([], Ok (VStr "default")) /\
    w [VStr "other"] =
      ([Called "condition" [VStr "other"]; Called "reducer" [VStr "other"]],
       Ok (VStr "other")).
Proof.
  set (c := Fn 0 (spy "condition" (fun _ => VBool true))).
  set (t := Fn 1 (spy "reducer" (fun a => nth 0 a VUndefined))).
  destruct (Matcher_alloc c (Fn 1 R.identity) []) as (o0 & E0 & W0 & _); [cbn; lia|].
  destruct (Matcher_alloc c t [o0]) as (o & E & _ & _ & Ha & Hfull & _); [cbn; lia|].
  assert (Ha1 : arity o = 1) by (rewrite Ha; reflexivity).
  destruct (withDefault_call (VStr "default") 1 [o0; o] o eq_refl)
    as (w & Ew & Hu & Hx & _); [lia|].
  rewrite Ha1 in Ew, Hu, Hx.
  exists 1, [o0; o], w. split.
  { unfold bindS. rewrite match_function, Matcher_default, E0.
    unfold dot_with. cbn [app nth_error List.length]. rewrite W0.
    cbn [call_with hd]. exact E. }
  split; [exact Ew|]. split.
  - apply Hu. cbn. lia.
  - rewrite (Hx (VStr "other") []); [|cbn; lia|reflexivity].
    unfold call, apply. cbn [nth_error].
    rewrite Hfull by (cbn; lia). reflexivity.
Defined.

(** ** C8 *)





(** ** C2 *)

Import Spec.

Lemma bind_assoc {A B C : Type} (m : M A) (f : A -> M B) (g : B -> M C) :
  bind (bind m f) g = bind m (fun a => bind (f a) g).
Proof.
  destruct m as [t [a | e]]; [|reflexivity].
  unfold bind at 2 3. destruct (f a) as [t1 [b | e1]]; cbn.
  - destruct (g b) as [t2 r]. rewrite app_assoc. reflexivity.
  - reflexivity.
Qed.










Lemma mapS_matcher_of_ok (args : list arg) (h : heap) :
  forallb isMatcher args = true ->
  exists ms, mapS matcher_of args h = Ok (ms, h).
Proof.
  induction args as [| a args IH]; intros H.
  - exists []. reflexivity.
  - cbn [forallb] in H. apply andb_prop in H as [Ha Hargs].
    destruct (IH Hargs) as (ms & E).
    assert (Em : exists m, matcher_of a h = Ok (m, h)).
    { destruct a as [[n f | m] | [ | | | | | | [m | | | ]] | s]; try discriminate Ha;
        exists m; reflexivity. }
    destruct Em as (m & Em). exists (m :: ms).
    cbn [mapS]. unfold bindS at 1. rewrite Em.
    unfold bindS at 1. rewrite E. reflexivity.
Qed.

(** The Matcher that [match.first] builds over Matchers at [ms]: it
    declares one parameter. *)
Lemma first_build (h : heap) (ms : list loc) :
  exists o,
    Matcher (Fn 0 R.T) (Callable (Fn 1 (first_reducer h ms))) h =
      Ok (List.length h, h ++ [o]) /\
    with_ o = WithChild (Fn 0 R.T) /\
    condition (privates o) = Fn 0 R.T /\
    arity o = 1 /\
    (forall args, 1 <= List.length args -> reduce o args = first_reducer h ms args) /\
    reduce o [] = ([], Ok (VFun (Itself (List.length h)))).
Proof.
  destruct (Matcher_alloc (Fn 0 R.T) (Fn 1 (first_reducer h ms)) h)
    as (o & E & Hw & Hp & Ha & Hfull & Hshort); [cbn; lia|].
  exists o. split; [exact E|]. split; [exact Hw|].
  split; [rewrite Hp; reflexivity|]. split; [exact Ha|]. split.
  - intros args Hargs. rewrite Hfull by exact Hargs.
    unfold R.ifElse_call. cbn [apply]. unfold R.T. rewrite bind_ret. reflexivity.
  - apply (Hshort []). cbn. lia.
Qed.





(** ** C5 *)

Lemma set_with_app (h1 h2 : heap) (o : MatcherObject) (w : WithImpl) :
  set_with (List.length h1) w (h1 ++ o :: h2) =
  h1 ++ mkMatcher (reduce o) (arity o) w (privates o) :: h2.
Proof.
  induction h1 as [| o1 h1 IH]; [reflexivity|].
  cbn [List.length app set_with]. rewrite IH. reflexivity.
Qed.

Lemma redux_alloc (c : arg) (h : heap) :
  isFunction c || isObject c = true ->
  exists om oc,
    redux c h = Ok (S (List.length h), h ++ [om; oc]) /\
    with_ oc = WithGroup (WithChild (Fn 2 (R.pipe (R.nthArg 1) (action_predicate h c)))) /\
    arity oc = 2 /\
    (forall args, 2 <= List.length args ->
        reduce oc args =
        R.ifElse_call (R.pipe (R.nthArg 1) (action_predicate h c)) R.identity R.identity
          args).
Proof.
  intros Hc. unfold redux, preconditions, PRECONDITIONS.isMatcherCondition, must, on_first.
  cbn [List.find fst hd]. rewrite Hc. cbn [negb].
  unfold actionCondition, getActionCondition, preconditions,
    PRECONDITIONS.isMatcherCondition, must, on_first.
  cbn [List.find fst hd]. rewrite Hc. cbn [negb].
  unfold bindS at 1. unfold bindS at 1. unfold getS at 1. cbn [retS].
  set (ac := Fn 2 (R.pipe (R.nthArg 1) (apply h (as_callable h (shape c))))).
  destruct (Matcher_alloc ac (Fn 1 R.identity) h) as (om & Em & Wm & Pm & _);
    [cbn; lia|].
  unfold bindS at 1. rewrite match_function, Matcher_default, Em.
  unfold bindS at 1. unfold getS. rewrite nth_error_alloc.
  unfold bindS at 1. unfold ofMatcher, preconditions, must, on_first.
  cbn [List.find fst hd isMatcher negb matcher_of].
  unfold bindS at 1. cbn [retS]. unfold bindS at 1. unfold getPrivates.
  rewrite nth_error_alloc, Pm. cbn [condition reducer].
  destruct (Matcher_alloc ac (Fn 1 R.identity) (h ++ [om]))
    as (oc & Ec & Wc & Pc & Ac & Hfull & _); [cbn; lia|].
  rewrite Ec. unfold defineProperty_with. rewrite set_with_app, Wm.
  exists om, (mkMatcher (reduce oc) (arity oc) (WithGroup (WithChild ac)) (privates oc)).
  split; [|split; [|split]].
  - rewrite length_app, <- app_assoc. cbn [List.length app].
    rewrite Nat.add_1_r. reflexivity.
  - reflexivity.
  - cbn [arity]. rewrite Ac. reflexivity.
  - intros args Ha. cbn [reduce]. rewrite Hfull by (cbn; lia). reflexivity.
Qed.

Lemma bindS_ok {A B : Type} (m : St A) (k : A -> St B) (h h' : heap) (a : A) :
  m h = Ok (a, h') -> bindS m k h = k a h'.
Proof. intros E. unfold bindS. rewrite E. reflexivity. Qed.

Lemma bindS_inv {A B : Type} (m : St A) (k : A -> St B) (h h2 : heap) (b : B) :
  bindS m k h = Ok (b, h2) ->
  exists a h1, m h = Ok (a, h1) /\ k a h1 = Ok (b, h2).
Proof.
  unfold bindS. destruct (m h) as [[a h1] | e]; [|discriminate].
  intros H. exists a, h1. split; [reflexivity|exact H].
Qed.

Lemma preconditions_ok {A : Type} (conditions : list precondition)
    (f : list arg -> St A) (args : list arg) (h h' : heap) (x : A) :
  preconditions conditions f args h = Ok (x, h') -> f args h = Ok (x, h').
Proof.
  unfold preconditions.
  destruct (List.find (fun c => negb (fst c args)) conditions);
    [discriminate|]. intros H; exact H.
Qed.

Lemma nth_error_alloc2 (h : heap) (om oc : MatcherObject) :
  nth_error (h ++ [om; oc]) (S (List.length h)) = Some oc.
Proof.
  change [om; oc] with ([om] ++ [oc]). rewrite app_assoc.
  replace (S (List.length h)) with (List.length (h ++ [om]))
    by (rewrite length_app; cbn; lia).
  apply nth_error_alloc.
Qed.

Lemma redux_ok_inv (c : arg) (h h' : heap) (rx : loc) :
  redux c h = Ok (rx, h') ->
  exists om oc,
    rx = S (List.length h) /\ h' = h ++ [om; oc] /\
    with_ oc = WithGroup (WithChild (Fn 2 (R.pipe (R.nthArg 1) (action_predicate h c)))) /\
    arity oc = 2 /\
    (forall args, 2 <= List.length args ->
        reduce oc args =
        R.ifElse_call (R.pipe (R.nthArg 1) (action_predicate h c)) R.identity R.identity
          args).
Proof.
  intros E. destruct (isFunction c || isObject c) eqn:Hc.
  - destruct (redux_alloc c h Hc) as (om & oc & E' & Hw & Ha & Hred).
    rewrite E' in E. injection E as <- <-.
    exists om, oc. repeat split; [exact Hw|exact Ha|exact Hred].
  - unfold redux, preconditions, PRECONDITIONS.isMatcherCondition, must, on_first in E.
    cbn [List.find fst hd] in E. rewrite Hc in E. discriminate E.
Qed.

Lemma convertToMatcher_promote (t : arg) (h h' : heap) (x : arg) :
  convertToMatcher t h = Ok (x, h') -> promote t h = Ok (x, h').
Proof.
  intros E. apply preconditions_ok in E. cbn [hd] in E. unfold promote.
  destruct (isMatcher t); exact E.
Qed.

Lemma mapS_convertToMatcher_promote (ts : list arg) :
  forall (h h' : heap) (xs : list arg),
    mapS convertToMatcher ts h = Ok (xs, h') -> mapS promote ts h = Ok (xs, h').
Proof.
  induction ts as [| t ts IH]; intros h h' xs E; [exact E|].
  cbn [mapS] in *. apply bindS_inv in E as (x & h1 & Ex & E).
  apply bindS_inv in E as (xs' & h2 & Exs & E).
  rewrite (bindS_ok _ _ _ _ _ (convertToMatcher_promote _ _ _ _ Ex)).
  rewrite (bindS_ok _ _ _ _ _ (IH _ _ _ Exs)). exact E.
Qed.

Lemma first_ok_inv (args : list arg) (h h' : heap) (g : loc) :
  first args h = Ok (g, h') ->
  exists o, g = List.length h /\ h' = h ++ [o] /\ arity o = 1.
Proof.
  intros E. apply preconditions_ok in E.
  apply bindS_inv in E as (ms & h1 & Ems & E).
  assert (Hh : h1 = h).
  { clear E. revert ms h h1 Ems. induction args as [| a args IH]; intros ms h h1 E.
    - injection E as _ <-. reflexivity.
    - cbn [mapS] in E. apply bindS_inv in E as (m & h2 & Em & E).
      apply bindS_inv in E as (ms' & h3 & Ems & E).
      injection E as _ <-. apply IH in Ems. subst h3.
      destruct a as [[n f | j] | [ | | | | | | [j | | | ]] | s]; try discriminate Em;
        injection Em as _ <-; reflexivity. }
  subst h1. apply bindS_inv in E as (h0 & h2 & Eg & E). injection Eg as <- <-.
  destruct (first_build h ms) as (o & E' & _ & _ & Ha & _).
  rewrite E' in E. injection E as <- <-. exists o. repeat split. exact Ha.
Qed.

(** C5. For every condition [c] and transforms [t1..tn], each a plain
    function or a Matcher: the Matcher that [match.redux(c)] and then
    [.with(t1,...,tn)] construct, called with [(state, action, ...rest)],
    runs the predicate of [c] on the action alone; when its value is falsy
    the call returns [state] and runs nothing else, and when it is truthy
    the call continues as [first(T1,...,Tn)(state, action, ...rest)], where
    [Ti] is [ti] when [ti] is a Matcher and [always(ti)] when it is a plain
    function. *)
Theorem redux_with (c : arg) (ts : list arg) (h h1 h2 : heap) (rx m : loc) :
  redux c h = Ok (rx, h1) ->
  dot_with rx ts h1 = Ok (m, h2) ->
  exists Ts hT g hg,
    mapS promote ts h1 = Ok (Ts, hT) /\
    first Ts hT = Ok (g, hg) /\
    forall (state action : val) (rest : list val) (tc : list event) (v : val),
      action_predicate h c [action] = (tc, Ok v) ->
      call h2 m (state :: action :: rest) =
        if truthy v
        then (tc ++ trace (call hg g (state :: action :: rest)),
              outcome (call hg g (state :: action :: rest)))
        else (tc, Ok state).
Proof.
  intros Erx Ew.
  destruct (redux_ok_inv c h h1 rx Erx) as (om & oc & -> & -> & Wc & _).
  set (ac := Fn 2 (R.pipe (R.nthArg 1) (action_predicate h c))) in *.
  unfold dot_with in Ew. rewrite nth_error_alloc2, Wc in Ew.
  cbn [call_with hd] in Ew. apply bindS_inv in Ew as (g & hg & Eg & Em).
  assert (Eg' := Eg). apply preconditions_ok in Eg'.
  apply bindS_inv in Eg' as (Ts & hT & ETs & Ef).
  exists Ts, hT, g, hg.
  split; [exact (mapS_convertToMatcher_promote _ _ _ _ ETs)|]. split; [exact Ef|].
  destruct (first_ok_inv Ts hT hg g Ef) as (og & -> & -> & Hag).
  assert (Hn : arity_of (hT ++ [og]) ac (Mat (List.length hT)) = 2).
  { unfold arity_of. cbn [len ac]. rewrite nth_error_alloc, Hag. reflexivity. }
  destruct (Matcher_alloc ac (Mat (List.length hT)) (hT ++ [og]))
    as (o & E & _ & _ & _ & Hfull & _); [rewrite Hn; lia|].
  rewrite E in Em. injection Em as <- <-.
  intros state action rest tc v Hp. unfold call at 1. unfold apply at 1.
  rewrite nth_error_alloc, Hfull by (rewrite Hn; cbn; lia).
  assert (Hac : apply (hT ++ [og]) ac (state :: action :: rest) = (tc, Ok v)).
  { unfold ac. cbn [apply]. unfold R.pipe. unfold R.nthArg.
    rewrite curryN_full by (cbn; lia). cbn [nth]. rewrite bind_ret. exact Hp. }
  rewrite (ifElse_value _ _ _ _ _ _ Hac).
  destruct (truthy v); [reflexivity|].
  cbn. rewrite app_nil_r. reflexivity.
Qed.

Lemma redux_with_witness :
  exists rx h1 m h2,
    redux (Callable (Fn 0 R.T)) [] = Ok (rx, h1) /\
    dot_with rx [Callable (Fn 1 (spy "plain" (fun _ => VNum 8)));
                 Callable (Fn 1 (spy "unused" (fun _ => VNum 10)))] h1 = Ok (m, h2) /\
    call h2 m [VNum 5; VStr "action"] =
      ([Called "plain" [VNum 5; VStr "action"]], Ok (VNum 8)).
Proof.
  destruct (redux (Callable (Fn 0 R.T)) []) as [[rx h1] | e] eqn:Erx;
    [|cbv in Erx; discriminate Erx].
  destruct (dot_with rx [Callable (Fn 1 (spy "plain" (fun _ => VNum 8)));
                         Callable (Fn 1 (spy "unused" (fun _ => VNum 10)))] h1)
    as [[m h2] | e] eqn:Ew;
    [|cbv in Erx; injection Erx as <- <-; cbv in Ew; discriminate Ew].
  exists rx, h1, m, h2. split; [reflexivity|]. split; [exact Ew|].
  destruct (redux_with _ _ _ _ _ _ _ Erx Ew) as (Ts & hT & g & hg & ETs & Eg & H).
  rewrite (H (VNum 5) (VStr "action") [] [] (VBool true) eq_refl). cbn [truthy].
  cbv in Erx. injection Erx as <- <-.
  cbv in ETs. injection ETs as <- <-.
  cbv in Eg. injection Eg as <- <-.
  reflexivity.
Defined.

(** ** The tree dispatcher: C4 and C10 *)

Import Lodash Tree Paths.

Section TreeProperties.
Context {F : Type}.

Lemma at_key_lookup {A B : Type} (k : string) (d : B) (f : A -> B) (o : list (string * A)) :
  at_key k d f o = match lookup k o with Some a => f a | None => d end.
Proof.
  induction o as [| [k' a] o IH]; [reflexivity|].
  cbn [at_key lookup]. destruct (k' =? k); [reflexivity|exact IH].
Qed.

Lemma lookup_In {A : Type} (k : string) (o : list (string * A)) (a : A) :
  lookup k o = Some a -> In (k, a) o.
Proof.
  induction o as [| [k' a'] o IH]; [discriminate|].
  cbn [lookup]. destruct (k' =? k) eqn:E.
  - intros [= ->]. apply String.eqb_eq in E. subst. left. reflexivity.
  - intros H. right. apply IH. exact H.
Qed.

Lemma verdict_code (rm : list F) :
  (if (1 <? List.length rm)%nat then Throw ambiguous
   else if (List.length rm =? 0)%nat then Ok None
   else Ok (hd_error rm)) = verdict rm.
Proof. destruct rm as [| f [| g rm]]; reflexivity. Qed.

Lemma mapR_verdict_ok {K : Type} (g : K -> list F) (l : list K) (rs : list (option F)) :
  mapR (fun k => verdict (g k)) l = Ok rs -> compact rs = flat_map g l.
Proof.
  revert rs. induction l as [| k l IH]; intros rs.
  - intros [= <-]. reflexivity.
  - cbn [mapR flat_map].
    destruct (g k) as [| f [| f' gk]]; cbn [verdict bindR]; try discriminate;
      destruct (mapR (fun k => verdict (g k)) l) as [rs' | e]; cbn [bindR];
      try discriminate; intros [= <-]; cbn [compact app]; rewrite (IH rs' eq_refl);
      reflexivity.
Qed.

Lemma mapR_verdict_throw {K : Type} (g : K -> list F) (l : list K) (e : error) :
  mapR (fun k => verdict (g k)) l = Throw e ->
  e = ambiguous /\ 2 <= List.length (flat_map g l).
Proof.
  induction l as [| k l IH]; [discriminate|].
  cbn [mapR flat_map]. rewrite length_app.
  destruct (g k) as [| f [| f' gk]]; cbn [verdict bindR].
  - destruct (mapR (fun k => verdict (g k)) l) as [rs' | e']; cbn [bindR];
      [discriminate|]. intros [= <-]. destruct (IH eq_refl) as [-> Hl].
    split; [reflexivity|]. cbn [List.length]. lia.
  - destruct (mapR (fun k => verdict (g k)) l) as [rs' | e']; cbn [bindR];
      [discriminate|]. intros [= <-]. destruct (IH eq_refl) as [-> Hl].
    split; [reflexivity|]. cbn [List.length]. lia.
  - intros [= <-]. split; [reflexivity|]. cbn [List.length]. lia.
Qed.

Lemma verdict_many (l : list F) : 2 <= List.length l -> verdict l = Throw ambiguous.
Proof. destruct l as [| f [| g l]]; cbn; intros; try lia; reflexivity. Qed.

Lemma get_defined (a : val) (k : string) :
  nullish a = false -> exists x, get a k = Ok x.
Proof. destruct a; try discriminate; intros _; eexists; reflexivity. Qed.

Lemma omitBy_filter (p : string -> bool) (pred : string -> result bool) (ks : list string) :
  (forall k, pred k = Ok (p k)) ->
  omitBy pred ks = Ok (filter (fun k => negb (p k)) ks).
Proof.
  intros Hp. induction ks as [| k ks IH]; [reflexivity|].
  cbn [omitBy filter]. rewrite Hp, IH. cbn [bindR].
  destruct (p k); reflexivity.
Qed.

Lemma mapR_ext_in {A B : Type} (f g : A -> result B) (l : list A) :
  (forall a, In a l -> f a = g a) -> mapR f l = mapR g l.
Proof.
  induction l as [| a l IH]; intros H; [reflexivity|].
  cbn [mapR]. rewrite (H a (or_introl eq_refl)), IH; [reflexivity|].
  intros b Hb. apply H. right. exact Hb.
Qed.

Lemma flat_map_filter {A B : Type} (g : A -> list B) (p : A -> bool) (l : list A) :
  (forall a, p a = false -> g a = []) ->
  flat_map g (filter p l) = flat_map g l.
Proof.
  intros H. induction l as [| a l IH]; [reflexivity|].
  cbn [filter flat_map]. destruct (p a) eqn:E.
  - cbn [flat_map]. rewrite IH. reflexivity.
  - rewrite (H a E), IH. reflexivity.
Qed.

Lemma entry_subtree (P : tree F -> Prop) (props : list (string * list (string * tree F)))
    (key value : string) :
  P TUndefined ->
  Forall (fun kv => Forall (fun vt => P (snd vt)) (snd kv)) props ->
  P (entry props key value).
Proof.
  intros HU Hprops. unfold entry. rewrite at_key_lookup.
  destruct (lookup key props) as [values |] eqn:Ek; [|exact HU].
  rewrite at_key_lookup.
  destruct (lookup value values) as [t |] eqn:Ev; [|exact HU].
  apply lookup_In in Ek. apply lookup_In in Ev.
  rewrite Forall_forall in Hprops. specialize (Hprops _ Ek). cbn [snd] in Hprops.
  rewrite Forall_forall in Hprops. apply (Hprops _ Ev).
Qed.

Lemma findReducer_at (props : list (string * list (string * tree F)))
    (action : val) (key value : string) :
  at_key key (Ok None) (at_key value (Ok None) (fun t => findReducer t action)) props =
  findReducer (entry props key value) action.
Proof.
  unfold entry. rewrite !at_key_lookup.
  destruct (lookup key props) as [values |]; [|reflexivity].
  rewrite !at_key_lookup. destruct (lookup value values); reflexivity.
Qed.

Lemma matching_at (props : list (string * list (string * tree F)))
    (action : val) (key value : string) :
  at_key key [] (at_key value [] (fun t => matching t action)) props =
  matching (entry props key value) action.
Proof.
  unfold entry. rewrite !at_key_lookup.
  destruct (lookup key props) as [values |]; [|reflexivity].
  rewrite !at_key_lookup. destruct (lookup value values); reflexivity.
Qed.

Lemma findReducer_verdict (t : tree F) (action : val) :
  nullish action = false ->
  findReducer t action = verdict (matching t action).
Proof.
  intros Ha. induction t as [| | f | props IH] using tree_induction; try reflexivity.
  assert (Hbranch : forall key,
            findReducer (branch props action key) action =
            verdict (matching (branch props action key) action)).
  { intros key. unfold branch. destruct (get action key) as [av | e]; [|reflexivity].
    destruct (is_undefined av); [reflexivity|].
    apply (entry_subtree (fun t => findReducer t action = verdict (matching t action)));
      [reflexivity|exact IH]. }
  cbn [findReducer matching].
  rewrite (omitBy_filter (fun key => is_undefined_tree (branch props action key))).
  2:{ intros key. unfold omitted, branch.
      destruct (get_defined action key Ha) as (av & ->). cbn [bindR].
      destruct (is_undefined av); [reflexivity|].
      destruct (is_undefined_tree _); reflexivity. }
  cbn [bindR].
  rewrite (mapR_ext_in _ (fun key => verdict (matching (branch props action key) action))).
  2:{ intros key Hin. apply filter_In in Hin as [_ Hkept].
      rewrite <- Hbranch. unfold branch in *.
      destruct (get_defined action key Ha) as (av & Eav). rewrite Eav in *. cbn [bindR].
      destruct (is_undefined av); [discriminate Hkept|].
      apply findReducer_at. }
  rewrite (flat_map_ext _ (fun key => matching (branch props action key) action)).
  2:{ intros key. unfold branch. destruct (get action key) as [av | e]; [|reflexivity].
      destruct (is_undefined av); [reflexivity|]. apply matching_at. }
  rewrite <- (flat_map_filter _ (fun key => negb (is_undefined_tree (branch props action key)))).
  2:{ intros key Hk. destruct (branch props action key); try discriminate Hk. reflexivity. }
  destruct (mapR _ _) as [rs | e] eqn:E; cbn [bindR].
  - rewrite verdict_code, (mapR_verdict_ok _ _ _ E). reflexivity.
  - destruct (mapR_verdict_throw _ _ _ E) as [-> Hl].
    rewrite (verdict_many _ Hl). reflexivity.
Qed.
Lemma own_reads_nullish (t : tree F) (action : val) :
  nullish action = true -> own_reads t action = true -> tree_keys t = [].
Proof.
  intros Ha. unfold own_reads.
  destruct (tree_keys t) as [| k ks]; [reflexivity|].
  cbn [forallb]. destruct action; try discriminate Ha; discriminate.
Qed.

Lemma own_reads_verdict (t : tree F) (action : val) :
  own_reads t action = true ->
  findReducer t action = verdict (matching t action).
Proof.
  intros Ho. destruct (nullish action) eqn:Ha.
  - apply (own_reads_nullish t action Ha) in Ho.
    destruct t as [| | f | [| [key values] props]]; try reflexivity.
    discriminate Ho.
  - apply findReducer_verdict. exact Ha.
Qed.
End TreeProperties.

(** C4, as the claim states it, fails: with the action [null], no leaf of
    the tree matches, and [findReducer] does not return [undefined]: it
    throws a TypeError on reading the key off the action. *)
Lemma findReducer_null_action_throws :
  matching (TNode [("type", [("A", TFun "fnA")])]) VNull = [] /\
  findReducer (TNode [("type", [("A", TFun "fnA")])]) VNull = Throw TypeError.
Proof. split; reflexivity. Qed.

(** C4, amended. For every reducer tree of the documented shape (each
    property of a tree holds an object of subtrees and functions) and every
    action that is an object and is read through own properties only ([own_reads]: no property name
    of the tree, and no value of the action under one, is a name that every
    object inherits, and those values are strings, booleans, [null] or
    integers written in full): [findReducer] returns the leaf when exactly
    one leaf matches the action, returns [undefined] when no leaf matches,
    and throws "More than one reducer matches this action." when more than
    one leaf matches; for the tree
    [{type:{A:fnA}, other:{C:{type:{B:fnB}}}}] and the action
    [{type:'A', other:'C'}] it returns [fnA]; and with an action that is
    [undefined] or [null] it throws a TypeError on every tree that has a
    key. *)
Theorem findReducer_cases {F : Type} (t : tree F) (action : val) :
  (own_reads t action = true ->
   (forall f, matching t action = [f] -> findReducer t action = Ok (Some f)) /\
   (matching t action = [] -> findReducer t action = Ok None) /\
   (2 <= List.length (matching t action) -> findReducer t action = Throw ambiguous)) /\
  (forall fnA fnB : F,
     findReducer
       (TNode [("type", [("A", TFun fnA)]);
               ("other", [("C", TNode [("type", [("B", TFun fnB)])])])])
       (VObj [("type", VStr "A"); ("other", VStr "C")]) = Ok (Some fnA)) /\
  (nullish action = true ->
   forall (prop : string * list (string * tree F)) props,
     findReducer (TNode (prop :: props)) action = Throw TypeError).
Proof.
  split; [|split].
  - intros Ho. rewrite (own_reads_verdict t action Ho).
    split; [|split].
    + intros f ->. reflexivity.
    + intros ->. reflexivity.
    + apply verdict_many.
  - intros fnA fnB. reflexivity.
  - intros Ha [key values] props. destruct action; try discriminate Ha; reflexivity.
Qed.

Lemma findReducer_cases_witness :
  findReducer
    (TNode [("foo", [("bar", TFun "first")]); ("baz", [("something", TFun "second")])])
    (VObj [("foo", VStr "bar"); ("baz", VStr "something")]) = Throw ambiguous /\
  findReducer
    (TNode [("foo", [("bar", TFun "first")]); ("baz", [("something", TFun "second")])])
    (VObj [("foo", VStr "bar")]) = Ok (Some "first") /\
  findReducer
    (TNode [("foo", [("bar", TFun "first")]); ("baz", [("something", TFun "second")])])
    (VObj [("baz", VStr "bar")]) = Ok None.
Proof.
  set (t := TNode [("foo", [("bar", TFun "first")]);
                   ("baz", [("something", TFun "second")])]).
  split; [|split].
  - apply (proj1 (findReducer_cases t
                    (VObj [("foo", VStr "bar"); ("baz", VStr "something")]))
             eq_refl).
    cbn. lia.
  - apply (proj1 (findReducer_cases t (VObj [("foo", VStr "bar")])) eq_refl).
    reflexivity.
  - apply (proj1 (findReducer_cases t (VObj [("baz", VStr "bar")])) eq_refl).
    reflexivity.
Defined.

(** C10, as the claim states it, fails: with the action [undefined], a tree
    with a key has no matching leaf, and [findReducer] throws a TypeError
    on reading the key off the action. *)
Lemma findReducer_undefined_action_throws :
  matching (TNode [("foo", [("bar", TFun "dummy")])]) VUndefined = [] /\
  findReducer (TNode [("foo", [("bar", TFun "dummy")])]) VUndefined = Throw TypeError.
Proof. split; reflexivity. Qed.

(** C10, amended. For every reducer tree of the documented shape and every
    action that is an object and is read through own properties only
    ([own_reads]): [findReducer] on a tree with no matching leaf returns
    [undefined], and it throws only when more than
    one leaf matches the action.  For every action, [undefined] and [null]
    included, [findReducer] returns [undefined] on the trees [undefined],
    [null] and [{}]; with an action that is [undefined] or [null], it
    throws a TypeError on every tree that has a key. *)
Theorem findReducer_safety {F : Type} (t : tree F) :
  (forall action, own_reads t action = true -> matching t action = [] ->
     findReducer t action = Ok None) /\
  (forall action e, own_reads t action = true -> findReducer t action = Throw e ->
     e = ambiguous /\ 2 <= List.length (matching t action)) /\
  (forall action,
     findReducer (@TUndefined F) action = Ok None /\
     findReducer (@TNull F) action = Ok None /\
     findReducer (@TNode F []) action = Ok None) /\
  (forall action (prop : string * list (string * tree F)) props,
     nullish action = true ->
     findReducer (TNode (prop :: props)) action = Throw TypeError).
Proof.
  split; [|split; [|split]].
  - intros action Ho Hm. rewrite (own_reads_verdict t action Ho), Hm. reflexivity.
  - intros action e Ho. rewrite (own_reads_verdict t action Ho).
    destruct (matching t action) as [| f [| g l]]; cbn [verdict]; try discriminate.
    intros [= <-]. split; [reflexivity|]. cbn [List.length]. lia.
  - intros action. repeat split.
  - intros action [key values] props Ha.
    destruct action; try discriminate Ha; reflexivity.
Qed.

Lemma findReducer_safety_witness :
  findReducer (TNode [("foo", [("bar", TFun "dummy")])]) (VObj [("baz", VStr "bar")])
    = Ok None /\
  findReducer (@TUndefined string) VUndefined = Ok None /\
  findReducer (TNode [("foo", [("bar", TFun "dummy")])]) VNull = Throw TypeError.
Proof.
  split; [|split].
  - apply (proj1 (findReducer_safety (TNode [("foo", [("bar", TFun "dummy")])]))
             (VObj [("baz", VStr "bar")]) eq_refl).
    reflexivity.
  - apply (proj1 (proj2 (proj2 (findReducer_safety (@TUndefined string)))) VUndefined).
  - apply (proj2 (proj2 (proj2 (findReducer_safety (@TUndefined string))))
             VNull ("foo", [("bar", TFun "dummy")]) [] eq_refl).
Defined.

(** ** combineReducers: C6 *)

Lemma slice_ret (state : val) (key : string) :
  slice state key = ret (slice_of state key).
Proof.
  unfold slice, slice_of. destruct (truthy state) eqn:E; [|reflexivity].
  destruct state; try discriminate E; reflexivity.
Qed.

Lemma mapM_ext_in {A B : Type} (f g : A -> M B) (l : list A) :
  (forall a, In a l -> f a = g a) -> mapM f l = mapM g l.
Proof.
  induction l as [| a l IH]; intros H; [reflexivity|].
  cbn [mapM]. rewrite (H a (or_introl eq_refl)), IH; [reflexivity|].
  intros b Hb. apply H. right. exact Hb.
Qed.

Lemma mapM_fields (f : string * func -> M val) (rs : list (string * func)) :
  (forall kf, In kf rs -> exists v, outcome (f kf) = Ok v) ->
  exists fields,
    mapM (fun kf => v <- f kf ;; ret (fst kf, v)) rs =
      (flat_map (fun kf => trace (f kf)) rs, Ok fields) /\
    Forall2 (fun kf kv => fst kv = fst kf /\ outcome (f kf) = Ok (snd kv)) rs fields.
Proof.
  induction rs as [| kf rs IH]; intros Hall.
  - exists []. split; [reflexivity|constructor].
  - destruct (Hall kf (or_introl eq_refl)) as (v & Hv).
    destruct IH as (fields & Em & Hf); [intros kf' Hin; apply Hall; right; exact Hin|].
    exists ((fst kf, v) :: fields). split.
    + cbn [mapM flat_map]. rewrite bind_assoc.
      rewrite (call_eta (f kf)), Hv, bind_value. cbn [trace outcome fst snd].
      rewrite bind_ret, Em, bind_value. cbn [ret trace outcome fst snd].
      rewrite app_nil_r. reflexivity.
    + constructor; [split; [reflexivity|exact Hv]|exact Hf].
Qed.

Lemma Forall2_keys (f : string * func -> M val) (rs : list (string * func))
    (fields : list (string * val)) :
  Forall2 (fun kf kv => fst kv = fst kf /\ outcome (f kf) = Ok (snd kv)) rs fields ->
  keys fields = keys rs.
Proof.
  induction 1 as [| kf kv rs fields [Hk _] _ IH]; [reflexivity|].
  unfold keys in *. cbn [map]. rewrite Hk, IH. reflexivity.
Qed.

(** C6. [combineReducers] throws "You must supply reducers to
    combineReducers()" when called with a falsy mapping.  For every mapping
    of keys to reducers and every state and action it returns a function
    which runs, in the order of the keys, [mapping[key]] on
    [(state && state[key], action, state)], the third argument being the
    whole state, and nothing else; when the reducers return, the result is
    an object with exactly the keys of the mapping, in the same order, each
    holding what its reducer returned, so a key of the state that the
    mapping lacks is dropped. *)
Theorem combineReducers_calls (rs : list (string * func)) (state action : val) :
  (forall reducers, falsy reducers = true ->
     combineReducers reducers =
       Throw (Error "You must supply reducers to combineReducers()")) /\
  exists combined,
    combineReducers (MReducers rs) = Ok combined /\
    ((forall kf, In kf rs ->
        exists v, outcome (snd kf (reducer_args state action (fst kf))) = Ok v) ->
     exists fields,
       combined state action =
         (flat_map (fun kf => trace (snd kf (reducer_args state action (fst kf)))) rs,
          Ok (VObj fields)) /\
       keys fields = keys rs /\
       Forall2
         (fun kf kv =>
            fst kv = fst kf /\
            outcome (snd kf (reducer_args state action (fst kf))) = Ok (snd kv))
         rs fields).
Proof.
  split.
  - intros reducers Hf. unfold combineReducers. rewrite Hf. reflexivity.
  - eexists. split; [reflexivity|]. intros Hall.
    destruct (mapM_fields
                (fun kf => snd kf (reducer_args state action (fst kf))) rs Hall)
      as (fields & Em & Hf).
    exists fields. split; [|split; [exact (Forall2_keys _ _ _ Hf)|exact Hf]].
    cbv beta. cbn [mapValues].
    assert (Hm : mapM (fun kf : string * func =>
                         v <- (s <- slice state (fst kf) ;; snd kf [s; action; state]) ;;
                         ret (fst kf, v)) rs =
                 mapM (fun kf : string * func =>
                         v <- snd kf (reducer_args state action (fst kf)) ;;
                         ret (fst kf, v)) rs).
    { apply mapM_ext_in. intros kf _. rewrite slice_ret, bind_ret. reflexivity. }
    rewrite Hm, Em, bind_value. cbn [ret trace outcome fst snd].
    rewrite app_nil_r. reflexivity.
Qed.

Lemma combineReducers_calls_witness :
  combineReducers (MData VUndefined) =
    Throw (Error "You must supply reducers to combineReducers()") /\
  exists combined,
    combineReducers
      (MReducers [("A", spy "A" (fun args => nth 2 args VUndefined))]) = Ok combined /\
    combined (VObj [("A", VNum 1); ("B", VNum 2)]) (VStr "act") =
      ([Called "A" [VNum 1; VStr "act"; VObj [("A", VNum 1); ("B", VNum 2)]]],
       Ok (VObj [("A", VObj [("A", VNum 1); ("B", VNum 2)])])).
Proof.
  destruct (combineReducers_calls
              [("A", spy "A" (fun args => nth 2 args VUndefined))]
              (VObj [("A", VNum 1); ("B", VNum 2)]) (VStr "act"))
    as (Hfalsy & combined & E & H).
  split; [apply Hfalsy; reflexivity|].
  exists combined. split; [exact E|].
  destruct H as (fields & Hc & _ & Hf).
  - intros kf [<- | []]. eexists. reflexivity.
  - rewrite Hc. inversion Hf as [| kf kv rs' fs' [Hk Hv] Hrest]; subst.
    inversion Hrest; subst. destruct kv as [k v]. cbn in Hk, Hv.
    injection Hv as <-. subst k. reflexivity.
Defined.

(** * Further properties *)

Import Reducer.

(** ** Matchers without a transform, and the failures of the combinators *)

(** X1. A Matcher without a transform is the identity on its first
    argument: for every condition [c] that declares at most ten parameters,
    [match(c)] and [match(c).with()] are Matchers of the arity
    [max(c.length, 1)] which, called with at least that many arguments
    [args], run [c(...args)] once and return [args[0]], whether the value
    of [c] is truthy or falsy; called with fewer arguments they run nothing
    and return a function. *)
Theorem match_default_identity (c : callable) (h : heap) :
  Spec.defined h c = true ->
  len h c <= 10 ->
  exists m0 h0 m1 h1,
    match_ (Callable c) h = Ok (m0, h0) /\
    dot_with m0 [] h0 = Ok (m1, h1) /\
    (forall (args : list val) (tc : list event) (v : val),
       Nat.max (len h c) 1 <= List.length args ->
       apply h c args = (tc, Ok v) ->
       call h0 m0 args = (tc, Ok (nth 0 args VUndefined)) /\
       call h1 m1 args = (tc, Ok (nth 0 args VUndefined))) /\
    (forall args : list val,
       List.length args < Nat.max (len h c) 1 ->
       (exists f, call h0 m0 args = ([], Ok (VFun f))) /\
       (exists f, call h1 m1 args = ([], Ok (VFun f)))).
Proof.
  intros Hc Hn.
  assert (Hd : Spec.defined h (Fn 1 R.identity) = true) by reflexivity.
  destruct (Matcher_alloc c (Fn 1 R.identity) h)
    as (o0 & E0 & W0 & _ & _ & Hfull0 & Hshort0); [rewrite arity_of_default; lia|].
  assert (Hg : Spec.arity_of (h ++ [o0]) c (Fn 1 R.identity) = Nat.max (len h c) 1)
    by (rewrite arity_of_grow by assumption; apply arity_of_default).
  destruct (Matcher_alloc c (Fn 1 R.identity) (h ++ [o0]))
    as (o1 & E1 & _ & _ & _ & Hfull1 & Hshort1); [rewrite Hg; lia|].
  rewrite arity_of_default in Hfull0, Hshort0. rewrite Hg in Hfull1, Hshort1.
  exists (List.length h), (h ++ [o0]), (List.length (h ++ [o0])), ((h ++ [o0]) ++ [o1]).
  split; [rewrite match_function, Matcher_default; exact E0|].
  split.
  { unfold dot_with. rewrite nth_error_alloc, W0. cbn [call_with hd].
    rewrite Matcher_default. exact E1. }
  split.
  - intros args tc v Ha Hcv. split.
    + unfold call. cbn [apply]. rewrite nth_error_alloc, Hfull0 by exact Ha.
      rewrite (ifElse_value _ _ _ _ _ _ Hcv). cbn.
      rewrite app_nil_r. destruct (truthy v); reflexivity.
    + unfold call. cbn [apply]. rewrite nth_error_alloc, Hfull1 by exact Ha.
      rewrite (proj1 (proj2 (defined_grow h [o0] c Hc))).
      rewrite (ifElse_value _ _ _ _ _ _ Hcv). cbn.
      rewrite app_nil_r. destruct (truthy v); reflexivity.
  - intros args Ha. split; eexists; unfold call; cbn [apply]; rewrite nth_error_alloc.
    + apply Hshort0. exact Ha.
    + apply Hshort1. exact Ha.
Qed.

Lemma match_default_identity_witness :
  exists m0 h0,
    match_ (Callable (Fn 1 (spy "condition" (fun _ => VBool true)))) [] = Ok (m0, h0) /\
    call h0 m0 [VStr "state"; VStr "action"] =
      ([Called "condition" [VStr "state"; VStr "action"]], Ok (VStr "state")) /\
    exists f, call h0 m0 [] = ([], Ok (VFun f)).
Proof.
  destruct (match_default_identity (Fn 1 (spy "condition" (fun _ => VBool true))) []
              eq_refl)
    as (m0 & h0 & m1 & h1 & E0 & _ & H & Hshort); [cbn; lia|].
  exists m0, h0. split; [exact E0|]. split.
  - apply (H [VStr "state"; VStr "action"] _ (VBool true)); [cbn; lia|reflexivity].
  - apply (Hshort []). cbn. lia.
Defined.

Lemma isMatcher_positiveLength (a : arg) (args : list arg) :
  isMatcher a = true -> positiveLength (a :: args) = true.
Proof.
  destruct a as [[n f | m] | [ | | | | | | [m | | | ]] | s]; try discriminate;
    reflexivity.
Qed.

(** X2. [match.first] returns a Matcher exactly when it is given at least
    one argument and every argument is a Matcher.  It throws "must pass at
    least one argument" for no argument, and also when the first argument
    is a plain function declaring no parameter (the precondition measures
    the [length] of the first argument); it throws "arguments must be
    Matchers" when the first argument is a Matcher and a later one is
    not. *)
Theorem first_fails_exactly (args : list arg) (h : heap) :
  ((exists m h', first args h = Ok (m, h')) <->
     args <> [] /\ forallb isMatcher args = true) /\
  first [] h = Throw (Error "must pass at least one argument") /\
  (forall f, first (Callable (Fn 0 f) :: args) h =
             Throw (Error "must pass at least one argument")) /\
  (forall m, forallb isMatcher args = false ->
             first (Callable (Mat m) :: args) h =
             Throw (Error "arguments must be Matchers")).
Proof.
  split; [|split; [reflexivity|split]].
  - split.
    + intros (m & h' & E). unfold first, preconditions in E.
      cbn [List.find fst must] in E.
      destruct (positiveLength args) eqn:Hp; cbn [negb] in E; [|discriminate E].
      destruct (forallb isMatcher args) eqn:Hm; cbn [negb] in E; [|discriminate E].
      split; [|reflexivity]. intros ->. discriminate Hp.
    + intros [Hne Hm]. destruct (mapS_matcher_of_ok args h Hm) as (ms & Ems).
      destruct (first_build h ms) as (o & E & _).
      exists (List.length h), (h ++ [o]).
      unfold first, preconditions. cbn [List.find fst must].
      destruct args as [| a args]; [exfalso; apply Hne; reflexivity|].
      rewrite (isMatcher_positiveLength a args)
        by (cbn [forallb] in Hm; apply andb_prop in Hm as [Ha _]; exact Ha).
      rewrite Hm. cbn [negb]. unfold bindS at 1. rewrite Ems.
      unfold bindS, getS. exact E.
  - intros f. reflexivity.
  - intros m Hm. unfold first, preconditions. cbn [List.find fst must positiveLength R_length].
    cbn [forallb isMatcher]. rewrite Hm. reflexivity.
Qed.

Lemma first_fails_exactly_witness :
  first [Callable (Mat 0); Data (VStr "foo")] [] = Throw (Error "arguments must be Matchers") /\
  first [Callable (Fn 0 R.T); Callable (Mat 0)] [] =
    Throw (Error "must pass at least one argument").
Proof.
  split.
  - apply (proj2 (proj2 (proj2 (first_fails_exactly [Data (VStr "foo")] []))) 0 eq_refl).
  - apply (proj1 (proj2 (proj2 (first_fails_exactly [Callable (Mat 0)] []))) R.T).
Defined.

Lemma isFunctionOrMatcher_function (t : arg) :
  isFunctionOrMatcher t = isFunction t.
Proof.
  destruct t as [[n f | m] | [ | | | | | | [m | | | ]] | s]; reflexivity.
Qed.

Lemma forallb_isFunctionOrMatcher (ts : list arg) :
  forallb isFunctionOrMatcher ts = forallb isFunction ts.
Proof.
  induction ts as [| t ts IH]; [reflexivity|].
  cbn [forallb]. rewrite isFunctionOrMatcher_function, IH. reflexivity.
Qed.

Lemma arity_of_T (h : heap) (f : callable) :
  Spec.arity_of h (Fn 0 R.T) f = Nat.max (len h f) 1.
Proof. unfold Spec.arity_of. cbn [len]. lia. Qed.

(** X3. [match.always(f)] is a Matcher that always runs [f]: for a plain
    function or a Matcher [f] that declares at most ten parameters, it has
    the arity [max(f.length, 1)], and its call with at least that many
    arguments is the call of [f] on the same arguments; called with fewer
    it runs nothing and returns a function.  For a value that is not a
    function [match.always] throws "must be a function or Matcher", and for
    a function that declares more than ten parameters it throws too. *)
Theorem always_call (a : arg) (f : callable) (h : heap) :
  (isFunction a = false ->
     always a h = Throw (Error "must be a function or Matcher")) /\
  (len h f <= 10 ->
   exists o,
     always (Callable f) h = Ok (List.length h, h ++ [o]) /\
     (forall args, Nat.max (len h f) 1 <= List.length args ->
        call (h ++ [o]) (List.length h) args = apply h f args) /\
     (forall args, List.length args < Nat.max (len h f) 1 ->
        exists g, call (h ++ [o]) (List.length h) args = ([], Ok (VFun g)))) /\
  (10 < len h f -> exists e, always (Callable f) h = Throw e).
Proof.
  split; [|split].
  - intros Ha. unfold always, preconditions, PRECONDITIONS.isFunctionOrMatcher, must, on_first.
    cbn [List.find fst hd]. rewrite isFunctionOrMatcher_function, Ha. reflexivity.
  - intros Hn.
    destruct (Matcher_alloc (Fn 0 R.T) f h) as (o & E & _ & _ & _ & Hfull & Hshort);
      [rewrite arity_of_T; lia|].
    rewrite arity_of_T in Hfull, Hshort.
    exists o. split; [exact E|]. split.
    + intros args Ha. unfold call. cbn [apply].
      rewrite nth_error_alloc, Hfull by exact Ha.
      unfold R.ifElse_call. cbn [apply]. unfold R.T. rewrite bind_ret. reflexivity.
    + intros args Ha. eexists. unfold call. cbn [apply].
      rewrite nth_error_alloc. apply Hshort. exact Ha.
  - intros Hn. exists R.arity_error. apply Matcher_too_long.
    rewrite arity_of_T. lia.
Qed.

Lemma always_call_witness :
  always (Data (VObj [])) [] = Throw (Error "must be a function or Matcher") /\
  exists o,
    always (Callable (Fn 2 (spy "reducer" (fun _ => VStr "result")))) [] = Ok (0, [o]) /\
    call [o] 0 [VStr "state"; VStr "action"] =
      ([Called "reducer" [VStr "state"; VStr "action"]], Ok (VStr "result")) /\
    exists g, call [o] 0 [VStr "state"] = ([], Ok (VFun g)).
Proof.
  destruct (always_call (Data (VObj [])) (Fn 2 (spy "reducer" (fun _ => VStr "result"))) [])
    as (Hthrow & Hok & _).
  split; [apply Hthrow; reflexivity|].
  destruct Hok as (o & E & H & Hshort); [cbn; lia|].
  exists o. split; [exact E|]. split.
  - exact (eq_trans (H [VStr "state"; VStr "action"] (le_n 2)) eq_refl).
  - apply (Hshort [VStr "state"]). cbn. lia.
Defined.

(** X4. [match.actionCondition(c)] and [match.plainActionCondition(c)] for
    a function [c] return a condition that hands [c] the second call
    argument alone, and construct no Matcher; called with fewer than two
    arguments, the condition hands [c] the function that [R.nthArg(1)]
    returns while it waits for the second.  For a value that is neither a
    function nor an object both throw "condition must be an object or
    function". *)
Theorem actionCondition_passes_action (a : arg) (c : callable) (h : heap) :
  (isFunction a || isObject a = false ->
     actionCondition a h = Throw (Error "condition must be an object or function") /\
     plainActionCondition a h = Throw (Error "condition must be an object or function")) /\
  exists g,
    actionCondition (Callable c) h = Ok (Callable (Fn 2 g), h) /\
    plainActionCondition (Callable c) h = Ok (Callable (Fn 2 g), h) /\
    (forall state action rest, g (state :: action :: rest) = apply h c [action]) /\
    (forall state, g [state] = apply h c [VFun (NthArgPartial 1 [state])]) /\
    g [] = apply h c [VFun (NthArgPartial 1 [])].
Proof.
  split.
  - intros Ha.
    unfold actionCondition, plainActionCondition, getActionCondition, preconditions,
      PRECONDITIONS.isMatcherCondition, must, on_first.
    cbn [List.find fst hd]. rewrite Ha. split; reflexivity.
  - exists (R.pipe (R.nthArg 1) (apply h c)).
    split; [reflexivity|]. split; [reflexivity|].
    split; [|split].
    + intros state action rest. unfold R.pipe, R.nthArg.
      rewrite curryN_full by (cbn; lia). cbn [nth]. rewrite bind_ret. reflexivity.
    + intros state. unfold R.pipe, R.nthArg.
      rewrite curryN_short by (cbn; lia). rewrite bind_value. cbn [app].
      symmetry. apply call_eta.
    + unfold R.pipe, R.nthArg.
      rewrite curryN_short by (cbn; lia). rewrite bind_value. cbn [app].
      symmetry. apply call_eta.
Qed.

Lemma actionCondition_passes_action_witness :
  actionCondition (Data (VStr "string")) [] =
    Throw (Error "condition must be an object or function") /\
  actionCondition (Data VNull) [] =
    Throw (Error "condition must be an object or function").
Proof.
  split.
  - apply (proj1 (actionCondition_passes_action (Data (VStr "string")) (Fn 0 R.T) [])).
    reflexivity.
  - apply (proj1 (actionCondition_passes_action (Data VNull) (Fn 0 R.T) [])).
    reflexivity.
Defined.

(** ** Conditions on the action *)

Lemma get_prop (a : val) (k : string) :
  nullish a = false -> get a k = Ok (prop a k).
Proof.
  intros Ha. unfold prop. destruct (get_defined a k Ha) as (x & ->). reflexivity.
Qed.

Lemma bind_lift_ok {A B : Type} (a : A) (k : A -> M B) :
  bind (lift (Ok a)) k = k a.
Proof. exact (bind_ret a k). Qed.

Lemma where_all (spec : list (string * func)) (action : val) :
  nullish action = false ->
  (forall kp, In kp spec -> truthy_at (snd kp) [prop action (fst kp)]) ->
  R.where_ spec action =
    (flat_map (fun kp => trace (snd kp [prop action (fst kp)])) spec, Ok (VBool true)).
Proof.
  intros Ha. induction spec as [| [k p] spec IH]; intros Hall; [reflexivity|].
  destruct (Hall (k, p) (or_introl eq_refl)) as (v & Hv & Ht). cbn [fst snd] in Hv.
  cbn [R.where_ flat_map fst snd]. rewrite (get_prop action k Ha).
  unfold lift. rewrite bind_value. cbn [app trace outcome fst snd].
  rewrite (call_eta (p [prop action k])), Hv, bind_value, Ht.
  rewrite IH by (intros kp Hin; apply Hall; right; exact Hin).
  reflexivity.
Qed.

Lemma where_first_false (spec : list (string * func)) (action : val) :
  nullish action = false ->
  forall (i : nat) (k : string) (p : func),
    nth_error spec i = Some (k, p) ->
    (forall j kp, j < i -> nth_error spec j = Some kp ->
                  truthy_at (snd kp) [prop action (fst kp)]) ->
    falsy_at p [prop action k] ->
    R.where_ spec action =
      (flat_map (fun kp => trace (snd kp [prop action (fst kp)])) (firstn (S i) spec),
       Ok (VBool false)).
Proof.
  intros Ha. induction spec as [| [k0 p0] spec IH]; intros i k p Hi Hbefore Hfalse.
  - destruct i; discriminate Hi.
  - cbn [R.where_]. rewrite (get_prop action k0 Ha).
    unfold lift. rewrite bind_value. cbn [app trace outcome fst snd].
    destruct i as [| i].
    + injection Hi as -> ->. destruct Hfalse as (v & Hv & Hf).
      rewrite (call_eta (p [prop action k])), Hv, bind_value, Hf.
      cbn [firstn flat_map fst snd ret trace outcome]. rewrite !app_nil_r. reflexivity.
    + destruct (Hbefore 0 (k0, p0) (Nat.lt_0_succ i) eq_refl) as (v & Hv & Ht).
      cbn [fst snd] in Hv.
      rewrite (call_eta (p0 [prop action k0])), Hv, bind_value, Ht.
      rewrite (IH i k p Hi); [reflexivity| |exact Hfalse].
      intros j kp Hj Hnth. apply (Hbefore (S j) kp); [lia|exact Hnth].
Qed.

(** X5. The condition [match.actionCondition(shape)] of an object of
    predicates, called with an action that has properties, runs the
    predicates in the order of the keys, each on the action's property
    under its key: when all return truthy values it returns [true]; at the
    first predicate that returns a falsy value it returns [false], and the
    predicates after it are not run. *)
Theorem shape_short_circuit (spec : list (string * func)) (h : heap) :
  exists g,
    actionCondition (Shape spec) h = Ok (Callable (Fn 2 g), h) /\
    forall (state action : val) (rest : list val),
      nullish action = false ->
      ((forall kp, In kp spec -> truthy_at (snd kp) [prop action (fst kp)]) ->
         g (state :: action :: rest) =
           (flat_map (fun kp => trace (snd kp [prop action (fst kp)])) spec,
            Ok (VBool true))) /\
      (forall (i : nat) (k : string) (p : func),
         nth_error spec i = Some (k, p) ->
         (forall j kp, j < i -> nth_error spec j = Some kp ->
                       truthy_at (snd kp) [prop action (fst kp)]) ->
         falsy_at p [prop action k] ->
         g (state :: action :: rest) =
           (flat_map (fun kp => trace (snd kp [prop action (fst kp)]))
                     (firstn (S i) spec),
            Ok (VBool false))).
Proof.
  exists (R.pipe (R.nthArg 1)
            (fun args => R.where_ spec (nth 0 args VUndefined))).
  split; [reflexivity|].
  intros state action rest Ha.
  assert (Hg : R.pipe (R.nthArg 1) (fun args => R.where_ spec (nth 0 args VUndefined))
                 (state :: action :: rest) = R.where_ spec action).
  { unfold R.pipe, R.nthArg. rewrite curryN_full by (cbn; lia).
    cbn [nth]. rewrite bind_ret. reflexivity. }
  rewrite Hg. split.
  - apply where_all. exact Ha.
  - apply where_first_false. exact Ha.
Qed.

Lemma shape_short_circuit_witness :
  exists g,
    actionCondition
      (Shape [("type", spy "type?" (fun _ => VBool false));
              ("id", spy "id?" (fun _ => VBool true))]) [] =
      Ok (Callable (Fn 2 g), []) /\
    g [VNull; VObj [("type", VStr "ADD"); ("id", VNum 1)]] =
      ([Called "type?" [VStr "ADD"]], Ok (VBool false)).
Proof.
  destruct (shape_short_circuit
              [("type", spy "type?" (fun _ => VBool false));
               ("id", spy "id?" (fun _ => VBool true))] [])
    as (g & E & H).
  exists g. split; [exact E|].
  refine (eq_trans
            (proj2 (H VNull (VObj [("type", VStr "ADD"); ("id", VNum 1)]) [] eq_refl)
               0 "type" _ eq_refl _ _) eq_refl).
  - intros j kp Hj. lia.
  - exists (VBool false). split; reflexivity.
Defined.

(** X6. With an action that is [undefined] or [null], an action condition
    built from an object with at least one key throws a TypeError before
    any predicate runs, for [match.actionCondition] and for
    [match.plainActionCondition]; built from the empty object it returns
    [true]. *)
Theorem shape_nullish_action (h : heap) (action state : val) (rest : list val) :
  nullish action = true ->
  (forall k p spec, exists g,
      actionCondition (Shape ((k, p) :: spec)) h = Ok (Callable (Fn 2 g), h) /\
      g (state :: action :: rest) = ([], Throw TypeError)) /\
  (forall k v fields, exists g,
      plainActionCondition (Data (VObj ((k, v) :: fields))) h =
        Ok (Callable (Fn 2 g), h) /\
      g (state :: action :: rest) = ([], Throw TypeError)) /\
  (exists g,
      actionCondition (Shape []) h = Ok (Callable (Fn 2 g), h) /\
      g (state :: action :: rest) = ([], Ok (VBool true))) /\
  (exists g,
      plainActionCondition (Data (VObj [])) h = Ok (Callable (Fn 2 g), h) /\
      g (state :: action :: rest) = ([], Ok (VBool true))).
Proof.
  intros Ha. split; [|split; [|split]].
  - intros k p spec.
    exists (R.pipe (R.nthArg 1)
              (fun args => R.where_ ((k, p) :: spec) (nth 0 args VUndefined))).
    split; [reflexivity|].
    destruct action; try discriminate Ha; reflexivity.
  - intros k v fields.
    exists (R.pipe (R.nthArg 1)
              (fun args => R.whereEq ((k, v) :: fields) (nth 0 args VUndefined))).
    split; [reflexivity|].
    destruct action; try discriminate Ha; reflexivity.
  - exists (R.pipe (R.nthArg 1) (fun args => R.where_ [] (nth 0 args VUndefined))).
    split; reflexivity.
  - exists (R.pipe (R.nthArg 1) (fun args => R.whereEq [] (nth 0 args VUndefined))).
    split; reflexivity.
Qed.

Lemma shape_nullish_action_witness :
  exists g,
    plainActionCondition (Data (VObj [("type", VStr "ADD")])) [] =
      Ok (Callable (Fn 2 g), []) /\
    g [VNum 0; VUndefined] = ([], Throw TypeError).
Proof.
  exact (proj1 (proj2 (shape_nullish_action [] VUndefined (VNum 0) [] eq_refl))
           "type" (VStr "ADD") []).
Defined.

Lemma whereEq_forallb (fields : list (string * val)) (action : val) :
  nullish action = false ->
  R.whereEq fields action =
    ([], Ok (VBool (forallb (fun kv => equals (snd kv) (prop action (fst kv))) fields))).
Proof.
  intros Ha. unfold R.whereEq.
  induction fields as [| [k v] fields IH]; [reflexivity|].
  cbn [map R.where_ forallb fst snd]. rewrite (get_prop action k Ha), bind_lift_ok.
  unfold R.equals_ at 1. cbn [nth]. rewrite bind_ret. cbn [truthy].
  destruct (equals v (prop action k)); [exact IH|reflexivity].
Qed.

(** X7. The condition [match.plainActionCondition(shape)] of an object of
    values, called with an action that has properties, runs no user
    function and returns [true] exactly when, for every key of the shape,
    the action's property under that key equals the shape's value
    ([R.equals]); properties of the action under other keys play no
    part. *)
Theorem plainActionCondition_subset (fields : list (string * val)) (h : heap) :
  exists g,
    plainActionCondition (Data (VObj fields)) h = Ok (Callable (Fn 2 g), h) /\
    forall (state action : val) (rest : list val),
      nullish action = false ->
      g (state :: action :: rest) =
        ([], Ok (VBool (forallb (fun kv => equals (snd kv) (prop action (fst kv)))
                                fields))).
Proof.
  exists (R.pipe (R.nthArg 1)
            (fun args => R.whereEq fields (nth 0 args VUndefined))).
  split; [reflexivity|].
  intros state action rest Ha. unfold R.pipe, R.nthArg.
  rewrite curryN_full by (cbn; lia). cbn [nth].
  rewrite bind_ret. apply whereEq_forallb. exact Ha.
Qed.

Lemma plainActionCondition_subset_witness :
  exists g,
    plainActionCondition (Data (VObj [("foo", VStr "bar"); ("bar", VStr "baz")])) [] =
      Ok (Callable (Fn 2 g), []) /\
    g [VNull; VObj [("foo", VStr "bar"); ("bar", VStr "baz"); ("something", VStr "else")]]
      = ([], Ok (VBool true)) /\
    g [VNull; VObj [("foo", VStr "bar")]] = ([], Ok (VBool false)).
Proof.
  destruct (plainActionCondition_subset [("foo", VStr "bar"); ("bar", VStr "baz")] [])
    as (g & E & H).
  exists g. split; [exact E|]. split.
  - exact (eq_trans
             (H VNull (VObj [("foo", VStr "bar"); ("bar", VStr "baz");
                             ("something", VStr "else")]) [] eq_refl)
             eq_refl).
  - exact (eq_trans (H VNull (VObj [("foo", VStr "bar")]) [] eq_refl) eq_refl).
Defined.

(** ** match.redux before and without transforms *)

(** X8. The Matcher [match.redux(c)] can be used as a reducer before
    [with] is called: called with [(state, action, ...rest)] it runs the
    predicate of [c] on the action alone and returns [state], whatever the
    predicate's value. *)
Theorem redux_before_with (c : arg) (h : heap) :
  isFunction c || isObject c = true ->
  exists rx h1,
    redux c h = Ok (rx, h1) /\
    forall (state action : val) (rest : list val) (tc : list event) (v : val),
      action_predicate h c [action] = (tc, Ok v) ->
      call h1 rx (state :: action :: rest) = (tc, Ok state).
Proof.
  intros Hc. destruct (redux_alloc c h Hc) as (om & oc & E & _ & _ & Hred).
  exists (S (List.length h)), (h ++ [om; oc]). split; [exact E|].
  intros state action rest tc v Hp. unfold call, apply.
  rewrite nth_error_alloc2, Hred by (cbn; lia).
  assert (Hac : R.pipe (R.nthArg 1) (action_predicate h c) (state :: action :: rest) =
                (tc, Ok v)).
  { unfold R.pipe, R.nthArg. rewrite curryN_full by (cbn; lia).
    cbn [nth]. rewrite bind_ret. exact Hp. }
  rewrite (ifElse_value _ _ _ _ _ _ Hac). cbn. rewrite app_nil_r.
  destruct (truthy v); reflexivity.
Qed.

Lemma redux_before_with_witness :
  exists rx h1,
    redux (Callable (Fn 1 (spy "condition" (fun _ => VBool true)))) [] = Ok (rx, h1) /\
    call h1 rx [VStr "state"; VStr "action"] =
      ([Called "condition" [VStr "action"]], Ok (VStr "state")).
Proof.
  destruct (redux_before_with (Callable (Fn 1 (spy "condition" (fun _ => VBool true)))) []
              eq_refl) as (rx & h1 & E & H).
  exists rx, h1. split; [exact E|].
  apply (H (VStr "state") (VStr "action") [] _ (VBool true) eq_refl).
Defined.

(** X9. [match.redux(c)] throws "condition must be an object or function"
    when [c] is neither.  On the Matcher it returns, [with()] without a
    transform throws "must pass at least one argument", and [with] given a
    transform that is not a function throws "arguments must be functions or
    Matchers"; neither constructs a Matcher. *)
Theorem redux_failures (c : arg) (h : heap) :
  (isFunction c || isObject c = false ->
     redux c h = Throw (Error "condition must be an object or function")) /\
  (forall rx h1, redux c h = Ok (rx, h1) ->
     dot_with rx [] h1 = Throw (Error "must pass at least one argument") /\
     forall ts, forallb isFunction ts = false ->
       dot_with rx ts h1 = Throw (Error "arguments must be functions or Matchers")).
Proof.
  split.
  - intros Hc. unfold redux, preconditions, PRECONDITIONS.isMatcherCondition, must, on_first.
    cbn [List.find fst hd]. rewrite Hc. reflexivity.
  - intros rx h1 E. destruct (redux_ok_inv c h h1 rx E) as (om & oc & -> & -> & Hw & _).
    split.
    + unfold dot_with. rewrite nth_error_alloc2, Hw. reflexivity.
    + intros ts Hts. unfold dot_with. rewrite nth_error_alloc2, Hw.
      cbn [call_with]. unfold bindS, getMatcherFromReducers, preconditions, must.
      cbn [List.find fst]. rewrite forallb_isFunctionOrMatcher, Hts. reflexivity.
Qed.

Lemma redux_failures_witness :
  redux (Data (VStr "string")) [] =
    Throw (Error "condition must be an object or function") /\
  exists rx h1,
    redux (Callable (Fn 0 R.T)) [] = Ok (rx, h1) /\
    dot_with rx [] h1 = Throw (Error "must pass at least one argument") /\
    dot_with rx [Callable (Fn 0 R.T); Data (VNum 5)] h1 =
      Throw (Error "arguments must be functions or Matchers").
Proof.
  split.
  - apply (proj1 (redux_failures (Data (VStr "string")) [])). reflexivity.
  - destruct (redux (Callable (Fn 0 R.T)) []) as [[rx h1] | e] eqn:E; [|discriminate E].
    exists rx, h1. split; [reflexivity|].
    destruct (proj2 (redux_failures (Callable (Fn 0 R.T)) []) rx h1 E) as [H0 Hts].
    split; [exact H0|]. apply Hts. reflexivity.
Defined.

(** ** No constructor touches an existing Matcher *)

Lemma extends_refl (h : heap) : extends h h.
Proof. exists []. rewrite app_nil_r. reflexivity. Qed.

Lemma extends_trans (h1 h2 h3 : heap) :
  extends h1 h2 -> extends h2 h3 -> extends h1 h3.
Proof.
  intros (n1 & ->) (n2 & ->). exists (n1 ++ n2). rewrite app_assoc. reflexivity.
Qed.

Lemma Matcher_extends (c : callable) (r : arg) (h h' : heap) (m : loc) :
  Matcher c r h = Ok (m, h') -> extends h h'.
Proof.
  intros E. destruct (Matcher_ok_inv c r h h' m E) as (o & _ & -> & _).
  exists [o]. reflexivity.
Qed.

Lemma match_extends (a : arg) (h h' : heap) (m : loc) :
  match_ a h = Ok (m, h') -> extends h h'.
Proof.
  intros E. apply preconditions_ok in E.
  apply bindS_inv in E as (h0 & h1 & Eg & E). injection Eg as <- <-.
  exact (Matcher_extends _ _ _ _ _ E).
Qed.

Lemma always_extends (a : arg) (h h' : heap) (m : loc) :
  always a h = Ok (m, h') -> extends h h'.
Proof.
  intros E. apply preconditions_ok in E. exact (Matcher_extends _ _ _ _ _ E).
Qed.

Lemma mapS_matcher_of_heap (args : list arg) (h h' : heap) (ms : list loc) :
  mapS matcher_of args h = Ok (ms, h') -> h' = h.
Proof.
  revert ms h h'. induction args as [| a args IH]; intros ms h h' E.
  - injection E as _ <-. reflexivity.
  - cbn [mapS] in E. apply bindS_inv in E as (m & h1 & Em & E).
    apply bindS_inv in E as (ms' & h2 & Ems & E).
    injection E as _ <-. apply IH in Ems. subst h2.
    destruct a as [[n f | j] | [ | | | | | | [j | | | ]] | s]; try discriminate Em;
      injection Em as _ <-; reflexivity.
Qed.

Lemma first_extends (args : list arg) (h h' : heap) (m : loc) :
  first args h = Ok (m, h') -> extends h h'.
Proof.
  intros E. apply preconditions_ok in E.
  apply bindS_inv in E as (ms & h1 & Ems & E).
  apply mapS_matcher_of_heap in Ems. subst h1.
  apply bindS_inv in E as (h0 & h2 & Eg & E). injection Eg as <- <-.
  exact (Matcher_extends _ _ _ _ _ E).
Qed.

Lemma getActionCondition_heap (p : arg -> arg) (a x : arg) (h h' : heap) :
  getActionCondition p a h = Ok (x, h') -> h' = h.
Proof.
  intros E. apply preconditions_ok in E.
  apply bindS_inv in E as (h0 & h1 & Eg & E). injection Eg as <- <-.
  injection E as _ <-. reflexivity.
Qed.

Lemma plainAction_extends (a : arg) (h h' : heap) (m : loc) :
  plainAction a h = Ok (m, h') -> extends h h'.
Proof.
  intros E. apply bindS_inv in E as (c & h1 & Ec & E).
  apply getActionCondition_heap in Ec. subst h1.
  exact (match_extends _ _ _ _ E).
Qed.

Lemma convertToMatcher_extends (a x : arg) (h h' : heap) :
  convertToMatcher a h = Ok (x, h') -> extends h h'.
Proof.
  intros E. apply preconditions_ok in E. cbn [hd] in E.
  destruct (negb (isMatcher a)).
  - apply bindS_inv in E as (m & h1 & Em & E). injection E as _ <-.
    exact (always_extends _ _ _ _ Em).
  - injection E as _ <-. apply extends_refl.
Qed.

Lemma mapS_convertToMatcher_extends (ts xs : list arg) (h h' : heap) :
  mapS convertToMatcher ts h = Ok (xs, h') -> extends h h'.
Proof.
  revert xs h h'. induction ts as [| t ts IH]; intros xs h h' E.
  - injection E as _ <-. apply extends_refl.
  - cbn [mapS] in E. apply bindS_inv in E as (x & h1 & Ex & E).
    apply bindS_inv in E as (xs' & h2 & Exs & E). injection E as _ <-.
    exact (extends_trans _ _ _ (convertToMatcher_extends _ _ _ _ Ex) (IH _ _ _ Exs)).
Qed.

Lemma getMatcherFromReducers_extends (ts : list arg) (h h' : heap) (m : loc) :
  getMatcherFromReducers ts h = Ok (m, h') -> extends h h'.
Proof.
  intros E. apply preconditions_ok in E.
  apply bindS_inv in E as (xs & h1 & Exs & E).
  exact (extends_trans _ _ _ (mapS_convertToMatcher_extends _ _ _ _ Exs)
           (first_extends _ _ _ _ E)).
Qed.

Lemma call_with_extends (w : WithImpl) :
  forall (args : list arg) (h h' : heap) (m : loc),
    call_with w args h = Ok (m, h') -> extends h h'.
Proof.
  induction w as [c | inner IH]; intros args h h' m E.
  - exact (Matcher_extends _ _ _ _ _ E).
  - cbn [call_with] in E. apply bindS_inv in E as (g & h1 & Eg & E).
    exact (extends_trans _ _ _ (getMatcherFromReducers_extends _ _ _ _ Eg)
             (IH _ _ _ _ E)).
Qed.

Lemma dot_with_extends (m0 : loc) (args : list arg) (h h' : heap) (m : loc) :
  dot_with m0 args h = Ok (m, h') -> extends h h'.
Proof.
  unfold dot_with. destruct (nth_error h m0) as [o |]; [|discriminate].
  apply call_with_extends.
Qed.

Lemma redux_extends (c : arg) (h h' : heap) (rx : loc) :
  redux c h = Ok (rx, h') -> extends h h'.
Proof.
  intros E. destruct (redux_ok_inv c h h' rx E) as (om & oc & _ & -> & _).
  exists [om; oc]. reflexivity.
Qed.

Lemma extends_keeps (h h' : heap) (l : loc) (o : MatcherObject) :
  extends h h' -> nth_error h l = Some o ->
  nth_error h' l = Some o /\ call h' l = call h l.
Proof.
  intros (new & ->) Hl.
  assert (Hlt : l < List.length h) by (apply nth_error_Some; rewrite Hl; discriminate).
  assert (Hl' : nth_error (h ++ new) l = Some o)
    by (rewrite nth_error_app1 by exact Hlt; exact Hl).
  split; [exact Hl'|]. unfold call, apply. rewrite Hl, Hl'. reflexivity.
Qed.

(** X10. No constructor of the library changes a Matcher that exists:
    whichever of [match], [match.first], [match.always],
    [match.plainAction], [match.redux] or a Matcher's [with] (the one of
    [match.redux] included) returns, every Matcher that existed before the
    call is the same object afterwards, with the same [with], the same
    [privates] and the same call. *)
Theorem constructors_extend_heap (h h' : heap) :
  (exists a m, match_ a h = Ok (m, h')) \/
  (exists args m, first args h = Ok (m, h')) \/
  (exists a m, always a h = Ok (m, h')) \/
  (exists a m, plainAction a h = Ok (m, h')) \/
  (exists a m, redux a h = Ok (m, h')) \/
  (exists m0 args m, dot_with m0 args h = Ok (m, h')) ->
  forall l o, nth_error h l = Some o ->
    nth_error h' l = Some o /\ call h' l = call h l.
Proof.
  intros H l o Hl. apply (extends_keeps h h' l o); [|exact Hl].
  destruct H as [(a & m & E) | [(args & m & E) | [(a & m & E) | [(a & m & E)
               | [(a & m & E) | (m0 & args & m & E)]]]]].
  - exact (match_extends _ _ _ _ E).
  - exact (first_extends _ _ _ _ E).
  - exact (always_extends _ _ _ _ E).
  - exact (plainAction_extends _ _ _ _ E).
  - exact (redux_extends _ _ _ _ E).
  - exact (dot_with_extends _ _ _ _ _ E).
Qed.

Lemma constructors_extend_heap_witness :
  exists h o rx h',
    match_ (Callable (Fn 0 R.F)) [] = Ok (0, h) /\
    nth_error h 0 = Some o /\
    redux (Callable (Fn 0 R.T)) h = Ok (rx, h') /\
    nth_error h' 0 = Some o /\
    call h' 0 = call h 0.
Proof.
  destruct (match_ (Callable (Fn 0 R.F)) []) as [[m h] | e] eqn:E; [|discriminate E].
  destruct (redux (Callable (Fn 0 R.T)) h) as [[rx h'] | e] eqn:Er;
    [|vm_compute in E; injection E as <- <-; discriminate Er].
  assert (Em : m = 0) by (vm_compute in E; injection E as <- _; reflexivity).
  subst m.
  destruct (nth_error h 0) as [o |] eqn:Ho;
    [|vm_compute in E; injection E as <-; discriminate Ho].
  exists h, o, rx, h'. split; [reflexivity|]. split; [exact Ho|]. split; [exact Er|].
  apply (constructors_extend_heap h h'); [|exact Ho].
  right; right; right; right; left. exists (Callable (Fn 0 R.T)), rx. exact Er.
Defined.

(** ** compose *)

Lemma bind_ret_r {A : Type} (m : M A) : bind m ret = m.
Proof.
  destruct m as [t [a | e]]; [|reflexivity].
  unfold bind, ret. rewrite app_nil_r. reflexivity.
Qed.

Lemma reduce_with_app (rest : list val) (rs1 rs2 : list func) (state : val) :
  reduce_with rest (rs1 ++ rs2) state =
  (s <- reduce_with rest rs1 state ;; reduce_with rest rs2 s).
Proof.
  revert state. induction rs1 as [| r rs1 IH]; intros state.
  - cbn [app reduce_with]. rewrite bind_ret. reflexivity.
  - cbn [app reduce_with]. rewrite bind_assoc.
    destruct (r (state :: rest)) as [t [s | e]]; [|reflexivity].
    rewrite !bind_value, IH. reflexivity.
Qed.

(** X11. [compose] threads the state through the reducers in the order
    given, each receiving the current state and the call's other arguments
    unchanged: composing two lists of reducers is composing the first list
    and then the second on its result; [compose()] returns the state,
    [compose(r)] is [r], and [compose(r1, r2)(state, ...rest)] is
    [r2(r1(state, ...rest), ...rest)]. *)
Theorem compose_app (rs1 rs2 : list func) (state : val) (rest : list val) :
  compose (rs1 ++ rs2) (state :: rest) =
    (s <- compose rs1 (state :: rest) ;; compose rs2 (s :: rest)) /\
  compose [] (state :: rest) = ([], Ok state) /\
  (forall r, compose [r] (state :: rest) = r (state :: rest)) /\
  (forall r1 r2,
     compose [r1; r2] (state :: rest) =
       (s <- r1 (state :: rest) ;; r2 (s :: rest))).
Proof.
  unfold compose. cbn [nth tl]. split; [|split; [|split]].
  - apply reduce_with_app.
  - reflexivity.
  - intros r. cbn [reduce_with]. apply bind_ret_r.
  - intros r1 r2. cbn [reduce_with].
    destruct (r1 (state :: rest)) as [t [s | e]]; [|reflexivity].
    rewrite !bind_value, bind_ret_r. reflexivity.
Qed.

(** X12. When a reducer of [compose] throws, the call throws the same
    exception and the reducers after it do not run: with the reducers
    before it returning the state [s], what has run is those reducers and
    the throwing one on [s]. *)
Theorem compose_stops_at_throw (before after : list func) (r : func)
    (state s : val) (rest : list val) (tb tr : list event) (e : error) :
  compose before (state :: rest) = (tb, Ok s) ->
  r (s :: rest) = (tr, Throw e) ->
  compose (before ++ r :: after) (state :: rest) = (tb ++ tr, Throw e).
Proof.
  unfold compose. cbn [nth tl]. intros Hb Hr.
  rewrite reduce_with_app, Hb, bind_value. cbn [reduce_with].
  rewrite Hr. reflexivity.
Qed.

Lemma compose_stops_at_throw_witness :
  compose [spy "first" (fun _ => VNum 1);
           (fun _ => ([Called "second" []], Throw TypeError));
           spy "third" (fun _ => VNum 3)]
          [VNum 0; VStr "action"] =
    ([Called "first" [VNum 0; VStr "action"]; Called "second" []], Throw TypeError).
Proof.
  exact (compose_stops_at_throw
           [spy "first" (fun _ => VNum 1)] [spy "third" (fun _ => VNum 3)]
           (fun _ => ([Called "second" []], Throw TypeError))
           (VNum 0) (VNum 1) [VStr "action"]
           [Called "first" [VNum 0; VStr "action"]] [Called "second" []] TypeError
           eq_refl eq_refl).
Defined.

(** ** reducer *)

Lemma innerReducer_verdict (d : val) (t : tree func) (state action : val)
    (rest : list val) :
  findReducer t action = verdict (matching t action) ->
  innerReducer d t (state :: action :: rest) =
    match verdict (matching t action) with
    | Ok None => ([], Ok (match state with VUndefined => d | _ => state end))
    | Ok (Some f) => f (match state with VUndefined => d | _ => state end :: action :: rest)
    | Throw e => ([], Throw e)
    end.
Proof.
  intros Hv. unfold innerReducer. cbn [nth skipn]. rewrite Hv.
  destruct (verdict (matching t action)) as [[f |] | e].
  - rewrite bind_lift_ok. destruct state; reflexivity.
  - destruct state; reflexivity.
  - reflexivity.
Qed.

(** X13. For a registry of the documented shape and an action that is an
    object and is read through own properties only ([own_reads]): when no
    leaf of the registry matches the action, the reducer returns the state
    it was given, or the default state when that state is [undefined], and
    calls nothing.  A reducer to which nothing was added does so for every
    action, [undefined] included. *)
Theorem reducer_no_match (r : Registry) (d state action : val) (rest : list val) :
  (own_reads (reducers r) action = true ->
   matching (reducers r) action = [] ->
   run r (state :: action :: rest) =
     ([], Ok (match state with VUndefined => defaultState r | _ => state end))) /\
  run (reducer d) (state :: action :: rest) =
    ([], Ok (match state with VUndefined => d | _ => state end)).
Proof.
  split.
  - intros Ho Hm. unfold run.
    rewrite (innerReducer_verdict _ _ _ _ _ (own_reads_verdict _ _ Ho)), Hm.
    reflexivity.
  - destruct state; reflexivity.
Qed.

Lemma reducer_no_match_witness :
  run (add (reducer (VObj [])) (TNode [("foo", [("baz", TFun (spy "leaf" (fun _ => VNull)))])]))
      [VUndefined; VObj [("foo", VStr "bar")]] = ([], Ok (VObj [])).
Proof.
  exact (proj1 (reducer_no_match
                  (add (reducer (VObj []))
                       (TNode [("foo", [("baz", TFun (spy "leaf" (fun _ => VNull)))])]))
                  VNull VUndefined (VObj [("foo", VStr "bar")]) [])
           eq_refl eq_refl).
Defined.

(** X14. For a registry of the documented shape and an action that is an
    object and is read through own properties only ([own_reads]): when
    exactly one leaf of the registry matches the action, the reducer is the
    call of that leaf on the state (the default state when the state given
    is [undefined]), the action and every further argument of the call. *)
Theorem reducer_dispatch (r : Registry) (f : func) (state action : val)
    (rest : list val) :
  own_reads (reducers r) action = true ->
  matching (reducers r) action = [f] ->
  run r (state :: action :: rest) =
    f (match state with VUndefined => defaultState r | _ => state end
         :: action :: rest).
Proof.
  intros Ho Hm. unfold run.
  rewrite (innerReducer_verdict _ _ _ _ _ (own_reads_verdict _ _ Ho)), Hm.
  reflexivity.
Qed.

Lemma reducer_dispatch_witness :
  run (add (reducer (VStr ""))
           (TNode [("type", [("A", TFun (spy "A" (fun args => nth 3 args VUndefined)))])]))
      [VUndefined; VObj [("type", VStr "A")]; VNull; VStr "foo"] =
    ([Called "A" [VStr ""; VObj [("type", VStr "A")]; VNull; VStr "foo"]],
     Ok (VStr "foo")).
Proof.
  exact (reducer_dispatch
           (add (reducer (VStr ""))
                (TNode [("type", [("A", TFun (spy "A" (fun args => nth 3 args VUndefined)))])]))
           (spy "A" (fun args => nth 3 args VUndefined))
           VUndefined (VObj [("type", VStr "A")]) [VNull; VStr "foo"]
           eq_refl eq_refl).
Defined.

(** X15. When more than one leaf of the registry matches the action, the
    reducer throws "More than one reducer matches this action." and calls
    none of them. *)
Theorem reducer_ambiguous (r : Registry) (state action : val) (rest : list val) :
  nullish action = false ->
  2 <= List.length (matching (reducers r) action) ->
  run r (state :: action :: rest) = ([], Throw ambiguous).
Proof.
  intros Ha Hm. unfold run.
  rewrite (innerReducer_verdict _ _ _ _ _ (findReducer_verdict _ _ Ha)),
    (verdict_many _ Hm).
  reflexivity.
Qed.

Lemma reducer_ambiguous_witness :
  run (add (add (reducer (VObj []))
                (TNode [("foo", [("bar", TFun (spy "second" (fun _ => VNull)))])]))
           (TNode [("baz", [("something", TFun (spy "third" (fun _ => VNull)))])]))
      [VStr "first"; VObj [("foo", VStr "bar"); ("baz", VStr "something")]] =
    ([], Throw ambiguous).
Proof.
  apply reducer_ambiguous; [reflexivity|]. cbn. lia.
Defined.

(** ** What findReducer reads of the action, and what it can return *)

Section Dispatch.
Context {F : Type}.

Lemma omitBy_ext_in (p q : string -> result bool) (ks : list string) :
  (forall k, In k ks -> p k = q k) -> omitBy p ks = omitBy q ks.
Proof.
  induction ks as [| k ks IH]; intros H; [reflexivity|].
  cbn [omitBy]. rewrite (H k (or_introl eq_refl)), IH; [reflexivity|].
  intros k' Hk'. apply H. right. exact Hk'.
Qed.

Lemma omitBy_incl (p : string -> result bool) (ks kept : list string) :
  omitBy p ks = Ok kept -> incl kept ks.
Proof.
  revert kept. induction ks as [| k ks IH]; intros kept E.
  - injection E as <-. apply incl_refl.
  - cbn [omitBy] in E. destruct (p k) as [omit | e]; [|discriminate E].
    cbn [bindR] in E. destruct (omitBy p ks) as [kept' | e]; [|discriminate E].
    cbn [bindR] in E. injection E as <-. specialize (IH kept' eq_refl).
    destruct omit.
    + apply incl_tl. exact IH.
    + apply incl_cons; [left; reflexivity|apply incl_tl; exact IH].
Qed.

Lemma lookup_keys {A : Type} (k : string) (o : list (string * A)) (a : A) :
  lookup k o = Some a -> In k (keys o).
Proof.
  intros H. apply lookup_In in H. unfold keys.
  change k with (fst (k, a)). apply in_map. exact H.
Qed.

Lemma tree_keys_node (props : list (string * list (string * tree F))) (k : string) :
  In k (keys props) -> In k (tree_keys (TNode props)).
Proof.
  unfold keys. intros H. apply in_map_iff in H as (kv & <- & Hin).
  cbn [tree_keys]. apply in_flat_map. exists kv. split; [exact Hin|left; reflexivity].
Qed.

Lemma tree_keys_entry (props : list (string * list (string * tree F)))
    (key value k : string) :
  In k (tree_keys (entry props key value)) -> In k (tree_keys (TNode props)).
Proof.
  unfold entry. rewrite at_key_lookup.
  destruct (lookup key props) as [values |] eqn:Ek; [|intros []].
  rewrite at_key_lookup.
  destruct (lookup value values) as [t |] eqn:Ev; [|intros []].
  intros Hk. apply lookup_In in Ek. apply lookup_In in Ev.
  cbn [tree_keys]. apply in_flat_map. exists (key, values). split; [exact Ek|].
  right. cbn [snd]. apply in_flat_map. exists (value, t). split; [exact Ev|exact Hk].
Qed.

(** X16. [findReducer] reads the action only under the property names that
    occur in the tree: two actions that agree on every such property
    (reading it gives the same value, or throws for both) get the same
    result, so properties of the action that the tree does not name are
    ignored. *)
Theorem findReducer_ignores_other_keys (t : tree F) (action action' : val) :
  (forall k, In k (tree_keys t) -> get action k = get action' k) ->
  findReducer t action = findReducer t action'.
Proof.
  induction t as [| | f | props IH] using tree_induction; try reflexivity.
  intros Hagree. cbn [findReducer].
  assert (Hentry : forall key value,
             findReducer (entry props key value) action =
             findReducer (entry props key value) action').
  { intros key value.
    apply (entry_subtree
             (fun t => (forall k, In k (tree_keys t) -> get action k = get action' k) ->
                       findReducer t action = findReducer t action'));
      [reflexivity|exact IH|].
    intros k Hk. apply Hagree. exact (tree_keys_entry props key value k Hk). }
  rewrite (omitBy_ext_in (omitted props action) (omitted props action')).
  2:{ intros k Hk. unfold omitted. rewrite (Hagree k (tree_keys_node props k Hk)).
      reflexivity. }
  destruct (omitBy (omitted props action') (keys props)) as [kept | e] eqn:Ekept;
    [|reflexivity].
  cbn [bindR].
  rewrite (mapR_ext_in _
             (fun match_ =>
                actionValue <-? get action' match_ ;;
                at_key match_ (Ok None)
                  (at_key (to_key actionValue) (Ok None)
                     (fun t => findReducer t action')) props)); [reflexivity|].
  intros k Hk. apply (omitBy_incl _ _ _ Ekept) in Hk.
  rewrite (Hagree k (tree_keys_node props k Hk)).
  destruct (get action' k) as [av | e]; [|reflexivity].
  cbn [bindR]. rewrite !findReducer_at. apply Hentry.
Qed.

Lemma matching_paths (t : tree F) (action : val) (f : F) :
  In f (matching t action) <->
  exists p, leaf_at t p = Some f /\ satisfies action p = true.
Proof.
  split.
  - induction t as [| | g | props IH] using tree_induction.
    + intros Hin. destruct Hin.
    + intros Hin. destruct Hin.
    + intros [<- | Hin]; [|destruct Hin]. exists []. split; reflexivity.
    + cbn [matching]. intros Hin. apply in_flat_map in Hin as (key & _ & Hin).
      destruct (get action key) as [av | e] eqn:Eav; [|destruct Hin].
      destruct (is_undefined av) eqn:Eu; [destruct Hin|].
      rewrite matching_at in Hin.
      assert (Hp : exists p, leaf_at (entry props key (to_key av)) p = Some f /\
                             satisfies action p = true).
      { revert Hin.
        apply (entry_subtree
                 (fun t => In f (matching t action) ->
                           exists p, leaf_at t p = Some f /\ satisfies action p = true));
          [intros []|exact IH]. }
      destruct Hp as (p & Hleaf & Hsat).
      exists ((key, to_key av) :: p). split; [exact Hleaf|].
      cbn [satisfies forallb fst snd]. rewrite Eav, Eu, String.eqb_refl. exact Hsat.
  - intros (p & Hleaf & Hsat). revert t Hleaf Hsat.
    induction p as [| [key value] p IH]; intros t Hleaf Hsat.
    + destruct t; try discriminate Hleaf. injection Hleaf as ->. left. reflexivity.
    + destruct t as [| | g | props]; try discriminate Hleaf.
      cbn [leaf_at] in Hleaf. cbn [satisfies forallb fst snd] in Hsat.
      apply andb_prop in Hsat as [Hstep Hsat].
      destruct (get action key) as [av | e] eqn:Eav; [|discriminate Hstep].
      apply andb_prop in Hstep as [Hu Hv]. apply String.eqb_eq in Hv. subst value.
      specialize (IH _ Hleaf Hsat).
      assert (Hkey : In key (keys props)).
      { unfold entry in Hleaf. rewrite at_key_lookup in Hleaf.
        destruct (lookup key props) as [values |] eqn:Ek.
        - exact (lookup_keys key props values Ek).
        - destruct p as [| [k v] p']; discriminate Hleaf. }
      cbn [matching]. apply in_flat_map. exists key. split; [exact Hkey|].
      rewrite Eav. destruct (is_undefined av); [discriminate Hu|].
      rewrite matching_at. exact IH.
Qed.

(** X17. For a tree of the documented shape and an action that is an
    object and is read through own properties only ([own_reads]): what
    [findReducer] returns is a function of the tree at the end of a path
    each step of which is a property of the action with the action's value
    for it; and when it returns [undefined] the tree has no function at the
    end of any such path. *)
Theorem findReducer_paths (t : tree F) (action : val) :
  own_reads t action = true ->
  (forall f, findReducer t action = Ok (Some f) ->
     exists p, leaf_at t p = Some f /\ satisfies action p = true) /\
  (findReducer t action = Ok None ->
     forall p, satisfies action p = true -> leaf_at t p = None).
Proof.
  intros Ho. rewrite (own_reads_verdict t action Ho). split.
  - intros f E. apply matching_paths.
    destruct (matching t action) as [| g [| g' l]]; try discriminate E.
    injection E as ->. left. reflexivity.
  - intros E p Hsat.
    destruct (leaf_at t p) as [f |] eqn:Hleaf; [|reflexivity].
    assert (Hin : In f (matching t action))
      by (apply matching_paths; exists p; split; assumption).
    destruct (matching t action) as [| g [| g' l]]; try discriminate E.
    destruct Hin.
Qed.

End Dispatch.

Lemma findReducer_ignores_other_keys_witness :
  findReducer (TNode [("foo", [("bar", TFun "leaf")])])
              (VObj [("foo", VStr "bar"); ("something", VStr "else")]) =
  findReducer (TNode [("foo", [("bar", TFun "leaf")])]) (VObj [("foo", VStr "bar")]).
Proof.
  apply findReducer_ignores_other_keys.
  intros k [<- | []]. reflexivity.
Defined.

Lemma findReducer_paths_witness :
  exists p,
    leaf_at (TNode [("type", [("A", TFun "fnA")]);
                    ("other", [("C", TNode [("type", [("B", TFun "fnB")])])])]) p
      = Some "fnA" /\
    satisfies (VObj [("type", VStr "A"); ("other", VStr "C")]) p = true.
Proof.
  exact (proj1 (findReducer_paths
                  (TNode [("type", [("A", TFun "fnA")]);
                          ("other", [("C", TNode [("type", [("B", TFun "fnB")])])])])
                  (VObj [("type", VStr "A"); ("other", VStr "C")]) eq_refl)
           "fnA" eq_refl).
Defined.

(** ** The registry: add and _.merge *)

Section Registry.
Context {F : Type}.

Lemma lookup_assignValue {A : Type} (key k : string) (value : A) (o : list (string * A)) :
  lookup k (assignValue key value o) =
  if key =? k then Some value else lookup k o.
Proof.
  induction o as [| [k' a] o IH].
  - cbn [assignValue lookup]. destruct (key =? k); reflexivity.
  - cbn [assignValue]. destruct (k' =? key) eqn:E.
    + apply String.eqb_eq in E. subst k'. cbn [lookup].
      destruct (key =? k); reflexivity.
    + cbn [lookup]. destruct (k' =? k) eqn:E'.
      * apply String.eqb_eq in E'. subst k'.
        rewrite String.eqb_sym, E. reflexivity.
      * exact IH.
Qed.

Lemma distinct_cons (k : string) (ks : list string) :
  distinct (k :: ks) = true -> ~ In k ks /\ distinct ks = true.
Proof.
  cbn [distinct]. intros H. apply andb_prop in H as [Hk Hd]. split; [|exact Hd].
  intros Hin. apply negb_true_iff in Hk.
  assert (existsb (String.eqb k) ks = true)
    by (apply existsb_exists; exists k; split; [exact Hin|apply String.eqb_refl]).
  congruence.
Qed.

Lemma lookup_absent {A : Type} (k : string) (o : list (string * A)) :
  ~ In k (keys o) -> lookup k o = None.
Proof.
  intros H. destruct (lookup k o) as [a |] eqn:E; [|reflexivity].
  exfalso. apply H. unfold keys. apply lookup_In in E.
  change k with (fst (k, a)). apply in_map. exact E.
Qed.

Lemma value_at_assignMerge (key k : string) (value : tree F) (o : list (string * tree F)) :
  value_at k (assignMergeValue key value o) =
  if key =? k then match value with TUndefined => value_at k o | _ => value end
  else value_at k o.
Proof.
  unfold value_at, assignMergeValue.
  destruct (key =? k) eqn:E.
  - apply String.eqb_eq in E. subst k.
    destruct value; try (rewrite lookup_assignValue, String.eqb_refl; reflexivity).
    destruct (lookup key o) as [t |] eqn:El.
    + rewrite El. reflexivity.
    + rewrite lookup_assignValue, String.eqb_refl. reflexivity.
  - destruct value; try (rewrite lookup_assignValue, E; reflexivity).
    destruct (lookup key o) as [t |] eqn:El; [reflexivity|].
    rewrite lookup_assignValue, E. reflexivity.
Qed.

Lemma value_at_mergeValues (source : list (string * tree F)) :
  distinct (keys source) = true ->
  forall (object : list (string * tree F)) (k : string),
    value_at k (mergeValues (fun o s => baseMergeDeep o s) source object) =
    merged (value_at k object) (value_at k source).
Proof.
  induction source as [| [key s] source IH]; intros Hd object k.
  - reflexivity.
  - cbn [keys map fst] in Hd. apply distinct_cons in Hd as [Hnin Hd].
    cbn [mergeValues]. rewrite (IH Hd), value_at_assignMerge.
    assert (Hs : value_at k ((key, s) :: source) =
                 if key =? k then s else value_at k source)
      by (unfold value_at; cbn [lookup]; destruct (key =? k); reflexivity).
    rewrite Hs. destruct (key =? k) eqn:E.
    + apply String.eqb_eq in E. subst k.
      assert (Hn : value_at key source = TUndefined)
        by (unfold value_at; rewrite (lookup_absent key source Hnin); reflexivity).
      rewrite Hn. cbn [merged]. destruct s; reflexivity.
    + reflexivity.
Qed.

Lemma lookup_mergeProps (source : list (string * list (string * tree F))) :
  distinct (keys source) = true ->
  forall (object : list (string * list (string * tree F))) (k : string),
    lookup k (mergeProps (fun o s => baseMergeDeep o s) source object) =
    match lookup k source with
    | Some srcValue =>
        Some (mergeValues (fun o s => baseMergeDeep o s) srcValue
                (match lookup k object with Some o => o | None => [] end))
    | None => lookup k object
    end.
Proof.
  induction source as [| [key s] source IH]; intros Hd object k.
  - reflexivity.
  - cbn [keys map fst] in Hd. apply distinct_cons in Hd as [Hnin Hd].
    cbn [mergeProps]. rewrite (IH Hd), lookup_assignValue.
    cbn [lookup]. destruct (key =? k) eqn:E.
    + apply String.eqb_eq in E. subst k.
      rewrite (lookup_absent key source Hnin). reflexivity.
    + reflexivity.
Qed.

Lemma entry_value_at (props : list (string * list (string * tree F))) (key value : string) :
  entry props key value =
  value_at value (match lookup key props with Some o => o | None => [] end).
Proof.
  unfold entry, value_at. rewrite at_key_lookup.
  destruct (lookup key props) as [o |]; [|reflexivity].
  rewrite at_key_lookup. reflexivity.
Qed.

Lemma well_formed_node (props : list (string * list (string * tree F))) :
  well_formed (TNode props) = true ->
  distinct (keys props) = true /\
  forall key o, lookup key props = Some o ->
    distinct (keys o) = true /\
    forall value t, lookup value o = Some t -> well_formed t = true.
Proof.
  cbn [well_formed]. intros H. apply andb_prop in H as [Hd Hall]. split; [exact Hd|].
  intros key o Hl. apply lookup_In in Hl.
  rewrite forallb_forall in Hall. specialize (Hall _ Hl). cbn [snd] in Hall.
  apply andb_prop in Hall as [Hdo Hch]. split; [exact Hdo|].
  intros value t Ht. apply lookup_In in Ht.
  rewrite forallb_forall in Hch. exact (Hch _ Ht).
Qed.

Lemma well_formed_entry (props : list (string * list (string * tree F))) (key value : string) :
  well_formed (TNode props) = true -> well_formed (entry props key value) = true.
Proof.
  intros H. apply well_formed_node in H as [_ H].
  rewrite entry_value_at. unfold value_at.
  destruct (lookup key props) as [o |] eqn:E; [|reflexivity].
  destruct (lookup value o) as [t |] eqn:E'; [|reflexivity].
  exact (proj2 (H _ _ E) _ _ E').
Qed.

Lemma entry_mergeProps (source object : list (string * list (string * tree F)))
    (key value : string) :
  well_formed (TNode source) = true ->
  entry (mergeProps (fun o s => baseMergeDeep o s) source object) key value =
  merged (entry object key value) (entry source key value).
Proof.
  intros H. apply well_formed_node in H as [Hd H].
  rewrite !entry_value_at, (lookup_mergeProps _ Hd).
  destruct (lookup key source) as [srcValue |] eqn:E.
  - apply (value_at_mergeValues _ (proj1 (H _ _ E))).
  - reflexivity.
Qed.

Lemma merged_registers (p : path) :
  forall (o s : tree F) (f : F),
    well_formed s = true -> leaf_at s p = Some f ->
    leaf_at (merged o s) p = Some f.
Proof.
  induction p as [| [key value] p IH]; intros o s f Hwf Hleaf.
  - destruct s; try discriminate Hleaf. exact Hleaf.
  - destruct s as [| | g | source]; try discriminate Hleaf.
    cbn [merged baseMergeDeep leaf_at]. rewrite (entry_mergeProps _ _ _ _ Hwf).
    apply IH; [apply well_formed_entry; exact Hwf | exact Hleaf].
Qed.

Lemma merged_preserves (p : path) :
  forall (o s : tree F) (f : F),
    well_formed s = true -> leaf_at o p = Some f -> untouched s p = true ->
    leaf_at (merged o s) p = Some f.
Proof.
  induction p as [| [key value] p IH]; intros o s f Hwf Hleaf Hun.
  - destruct s; try discriminate Hun. exact Hleaf.
  - destruct s as [| | g | source]; try discriminate Hun; [exact Hleaf|].
    destruct o as [| | g | object]; try discriminate Hleaf.
    cbn [merged baseMergeDeep leaf_at]. rewrite (entry_mergeProps _ _ _ _ Hwf).
    apply IH; [apply well_formed_entry; exact Hwf | exact Hleaf | exact Hun].
Qed.

Lemma assignValue_new {A : Type} (key : string) (value : A) (o : list (string * A)) :
  ~ In key (keys o) -> assignValue key value o = o ++ [(key, value)].
Proof.
  induction o as [| [k a] o IH]; intros Hnin; [reflexivity|].
  cbn [assignValue]. destruct (k =? key) eqn:E.
  - apply String.eqb_eq in E. subst k. exfalso. apply Hnin. left. reflexivity.
  - cbn [app]. rewrite IH; [reflexivity|].
    intros Hin. apply Hnin. right. exact Hin.
Qed.

Lemma keys_app {A : Type} (o o' : list (string * A)) :
  keys (o ++ o') = keys o ++ keys o'.
Proof. unfold keys. apply map_app. Qed.

Lemma mergeValues_new (mergeDeep : tree F -> tree F -> tree F)
    (source : list (string * tree F)) :
  distinct (keys source) = true ->
  Forall (fun vt => mergeDeep TUndefined (snd vt) = snd vt) source ->
  forall object,
    (forall k, In k (keys source) -> ~ In k (keys object)) ->
    mergeValues mergeDeep source object = object ++ source.
Proof.
  induction source as [| [key s] source IH]; intros Hd Hall object Hnew.
  - cbn [mergeValues]. rewrite app_nil_r. reflexivity.
  - cbn [keys map fst] in Hd. apply distinct_cons in Hd as [Hnin Hd].
    inversion Hall as [| ? ? Hs Hall']; subst. cbn [snd] in Hs.
    assert (Hkey : ~ In key (keys object)) by (apply Hnew; left; reflexivity).
    cbn [mergeValues]. rewrite (lookup_absent key object Hkey), Hs.
    assert (Ha : assignMergeValue key s object = object ++ [(key, s)]).
    { unfold assignMergeValue. rewrite (lookup_absent key object Hkey).
      destruct s; apply assignValue_new; exact Hkey. }
    rewrite Ha, (IH Hd Hall').
    + rewrite <- app_assoc. reflexivity.
    + intros k Hk. rewrite keys_app. intros Hin. apply in_app_or in Hin as [Hin | Hin].
      * apply (Hnew k); [right; exact Hk|exact Hin].
      * destruct Hin as [<- | []]. apply Hnin. exact Hk.
Qed.

Lemma mergeProps_new (mergeDeep : tree F -> tree F -> tree F)
    (source : list (string * list (string * tree F))) :
  distinct (keys source) = true ->
  Forall (fun kv => mergeValues mergeDeep (snd kv) [] = snd kv) source ->
  forall object,
    (forall k, In k (keys source) -> ~ In k (keys object)) ->
    mergeProps mergeDeep source object = object ++ source.
Proof.
  induction source as [| [key s] source IH]; intros Hd Hall object Hnew.
  - cbn [mergeProps]. rewrite app_nil_r. reflexivity.
  - cbn [keys map fst] in Hd. apply distinct_cons in Hd as [Hnin Hd].
    inversion Hall as [| ? ? Hs Hall']; subst. cbn [snd] in Hs.
    assert (Hkey : ~ In key (keys object)) by (apply Hnew; left; reflexivity).
    cbn [mergeProps]. rewrite (lookup_absent key object Hkey), Hs.
    rewrite (assignValue_new _ _ _ Hkey), (IH Hd Hall').
    + rewrite <- app_assoc. reflexivity.
    + intros k Hk. rewrite keys_app. intros Hin. apply in_app_or in Hin as [Hin | Hin].
      * apply (Hnew k); [right; exact Hk|exact Hin].
      * destruct Hin as [<- | []]. apply Hnin. exact Hk.
Qed.

Lemma baseMergeDeep_new (s : tree F) :
  well_formed s = true -> baseMergeDeep TUndefined s = s.
Proof.
  induction s as [| | f | props IH] using tree_induction; try reflexivity.
  cbn [well_formed]. intros H. apply andb_prop in H as [Hd Hall].
  cbn [baseMergeDeep]. f_equal.
  apply mergeProps_new; [exact Hd| |intros k _ []].
  rewrite forallb_forall in Hall. apply Forall_forall. intros kv Hin.
  specialize (Hall kv Hin). apply andb_prop in Hall as [Hdv Hch].
  rewrite Forall_forall in IH. specialize (IH kv Hin).
  rewrite <- (app_nil_l (snd kv)) at 2.
  apply mergeValues_new; [exact Hdv| |intros k _ []].
  rewrite forallb_forall in Hch. apply Forall_forall. intros vt Hvt.
  rewrite Forall_forall in IH. exact (IH vt Hvt (Hch vt Hvt)).
Qed.

End Registry.

(** X18. [add] registers the functions of the tree it is given: a function
    at the end of a path of the tree is, after the call, at the end of the
    same path of the registry, whatever the registry held there, as long as
    no function of the registry lies on the way (there the releases of
    lodash differ). *)
Theorem add_registers (d : val)
    (object source : list (string * list (string * tree func)))
    (p : path) (f : func) :
  well_formed (TNode source) = true ->
  leaf_at (TNode source) p = Some f ->
  (forall n, n < List.length p -> leaf_at (TNode object) (firstn n p) = None) ->
  leaf_at (reducers (add (mkRegistry d (TNode object)) (TNode source))) p = Some f.
Proof.
  intros Hwf Hleaf _.
  exact (merged_registers p (TNode object) (TNode source) f Hwf Hleaf).
Qed.

Lemma add_registers_witness :
  leaf_at
    (reducers
       (add (mkRegistry (VObj []) (TNode [("foo", [("bar", TFun (spy "second" (fun _ => VNum 2)))])]))
            (TNode [("baz", [("something", TFun (spy "third" (fun _ => VNum 3)))])])))
    [("baz", "something")] = Some (spy "third" (fun _ => VNum 3)).
Proof.
  apply add_registers; [reflexivity|reflexivity|].
  intros [| n] Hn; [reflexivity|]. cbn [List.length] in Hn. lia.
Defined.

(** X19. [add] keeps what the registry holds wherever the tree it is given
    holds nothing: a function at the end of a path of the registry stays
    there when the tree ends, on that path, at a missing or [undefined]
    entry. *)
Theorem add_preserves (d : val)
    (object source : list (string * list (string * tree func)))
    (p : path) (f : func) :
  well_formed (TNode source) = true ->
  leaf_at (TNode object) p = Some f ->
  untouched (TNode source) p = true ->
  leaf_at (reducers (add (mkRegistry d (TNode object)) (TNode source))) p = Some f.
Proof.
  intros Hwf Hleaf Hun.
  exact (merged_preserves p (TNode object) (TNode source) f Hwf Hleaf Hun).
Qed.

Lemma add_preserves_witness :
  leaf_at
    (reducers
       (add (mkRegistry (VObj [])
               (TNode [("foo", [("bar", TFun (spy "second" (fun _ => VNum 2)))])]))
            (TNode [("foo", [("qux", TFun (spy "fourth" (fun _ => VNum 4)))]);
                    ("baz", [("something", TFun (spy "third" (fun _ => VNum 3)))])])))
    [("foo", "bar")] = Some (spy "second" (fun _ => VNum 2)).
Proof.
  apply add_preserves; reflexivity.
Defined.

(** X20. The first [add] on a new reducer stores the tree as it is, keys in
    their order, so that the reducer dispatches on that tree. *)
Theorem add_to_new_reducer (d : val)
    (source : list (string * list (string * tree func))) :
  well_formed (TNode source) = true ->
  reducers (add (reducer d) (TNode source)) = TNode source /\
  forall arguments,
    run (add (reducer d) (TNode source)) arguments =
    innerReducer d (TNode source) arguments.
Proof.
  intros Hwf.
  assert (E : reducers (add (reducer d) (TNode source)) = TNode source)
    by exact (baseMergeDeep_new (TNode source) Hwf).
  split; [exact E|].
  intros arguments. unfold run. rewrite E. reflexivity.
Qed.

Lemma add_to_new_reducer_witness :
  reducers
    (add (reducer (VObj []))
         (TNode [("type", [("A", TFun (spy "A" (fun _ => VStr "A")))]);
                 ("other",
                  [("C", TNode [("type", [("B", TFun (spy "B" (fun _ => VStr "B")))])])])])) =
  TNode [("type", [("A", TFun (spy "A" (fun _ => VStr "A")))]);
         ("other",
          [("C", TNode [("type", [("B", TFun (spy "B" (fun _ => VStr "B")))])])])].
Proof.
  exact (proj1 (add_to_new_reducer (VObj [])
                  [("type", [("A", TFun (spy "A" (fun _ => VStr "A")))]);
                   ("other",
                    [("C", TNode [("type", [("B", TFun (spy "B" (fun _ => VStr "B")))])])])]
                  eq_refl)).
Defined.

(** ** combineReducers and preconditions: failures *)

Lemma mapM_throw {A B : Type} (g : A -> M B) (a : A) (after : list A)
    (ta : list event) (e : error) (before : list A) :
  g a = (ta, Throw e) ->
  forall (tb : list event) (bs : list B),
    mapM g before = (tb, Ok bs) ->
    mapM g (before ++ a :: after) = (tb ++ ta, Throw e).
Proof.
  intros Ha. induction before as [| b before IH]; intros tb bs Hb.
  - cbn [mapM] in Hb. injection Hb as <- _.
    cbn [app mapM]. rewrite Ha. reflexivity.
  - cbn [app mapM] in *. destruct (g b) as [t1 [x | e1]]; [|discriminate Hb].
    destruct (mapM g before) as [t2 [bs2 | e2]]; [|discriminate Hb].
    rewrite (IH t2 bs2 eq_refl). cbn in Hb |- *. injection Hb as <- _.
    rewrite app_nil_r, app_assoc. reflexivity.
Qed.

(** X21. When a reducer of the mapping throws, the function that
    [combineReducers] returned throws the same exception and returns no
    object; the reducers of the keys after it do not run: what has run is
    the reducers of the keys before it, in order, and the throwing one. *)
Theorem combineReducers_stops_at_throw (before after : list (string * func))
    (key : string) (f : func) (state action : val) (e : error) :
  (forall kf, In kf before ->
     exists v, outcome (snd kf (reducer_args state action (fst kf))) = Ok v) ->
  outcome (f (reducer_args state action key)) = Throw e ->
  exists combined,
    combineReducers (MReducers (before ++ (key, f) :: after)) = Ok combined /\
    combined state action =
      (flat_map (fun kf => trace (snd kf (reducer_args state action (fst kf)))) before
         ++ trace (f (reducer_args state action key)),
       Throw e).
Proof.
  intros Hall Hf. eexists. split; [reflexivity|]. cbv beta. cbn [mapValues].
  destruct (mapM_fields
              (fun kf => snd kf (reducer_args state action (fst kf))) before Hall)
    as (fields & Em & _).
  assert (Hm : mapM (fun kf : string * func =>
                       v <- (s <- slice state (fst kf) ;; snd kf [s; action; state]) ;;
                       ret (fst kf, v)) before =
               mapM (fun kf : string * func =>
                       v <- snd kf (reducer_args state action (fst kf)) ;;
                       ret (fst kf, v)) before).
  { apply mapM_ext_in. intros kf _. rewrite slice_ret, bind_ret. reflexivity. }
  rewrite Em in Hm.
  assert (Hg : (fun kf : string * func =>
                  v <- (s <- slice state (fst kf) ;; snd kf [s; action; state]) ;;
                  ret (fst kf, v)) (key, f) =
               (trace (f (reducer_args state action key)), Throw e)).
  { cbv beta. cbn [fst snd]. rewrite slice_ret, bind_ret.
    fold (reducer_args state action key).
    rewrite (call_eta (f (reducer_args state action key))), Hf. reflexivity. }
  rewrite (mapM_throw _ (key, f) after _ e before Hg _ _ Hm). reflexivity.
Qed.

Lemma combineReducers_stops_at_throw_witness :
  exists combined,
    combineReducers
      (MReducers [("A", spy "A" (fun _ => VNum 1));
                  ("B", fun _ => ([Called "B" []], Throw TypeError));
                  ("C", spy "C" (fun _ => VNum 3))]) = Ok combined /\
    combined (VObj [("A", VNum 0)]) (VStr "act") =
      ([Called "A" [VNum 0; VStr "act"; VObj [("A", VNum 0)]]; Called "B" []],
       Throw TypeError).
Proof.
  apply (combineReducers_stops_at_throw
           [("A", spy "A" (fun _ => VNum 1))] [("C", spy "C" (fun _ => VNum 3))]
           "B" (fun _ => ([Called "B" []], Throw TypeError))
           (VObj [("A", VNum 0)]) (VStr "act") TypeError).
  - intros kf [<- | []]. exists (VNum 1). reflexivity.
  - reflexivity.
Defined.

(** X22. [preconditions] throws for the first condition, in the order they
    were given, that the arguments fail, with the message of that condition
    (or "failed precondition" when it has none), and the function is not
    called; when the arguments pass every condition the call is the call of
    the function. *)
Theorem preconditions_first_failure {A : Type} (conditions : list precondition)
    (f : list arg -> St A) (args : list arg) (h : heap) :
  (forallb (fun c => fst c args) conditions = true ->
   preconditions conditions f args h = f args h) /\
  (forall before c after,
     conditions = before ++ c :: after ->
     forallb (fun c => fst c args) before = true ->
     fst c args = false ->
     preconditions conditions f args h = Throw (Error (failureMessage c))).
Proof.
  unfold preconditions. split.
  - intros Hall.
    assert (E : List.find (fun c => negb (fst c args)) conditions = None).
    { induction conditions as [| c cs IH]; [reflexivity|].
      cbn [forallb] in Hall. apply andb_prop in Hall as [Hc Hcs].
      cbn [List.find]. rewrite Hc. exact (IH Hcs). }
    rewrite E. reflexivity.
  - intros before c after -> Hb Hc.
    assert (E : List.find (fun c => negb (fst c args)) (before ++ c :: after) = Some c).
    { induction before as [| b before IH].
      - cbn [app List.find]. rewrite Hc. reflexivity.
      - cbn [forallb] in Hb. apply andb_prop in Hb as [Hb1 Hb2].
        cbn [app List.find]. rewrite Hb1. exact (IH Hb2). }
    rewrite E. reflexivity.
Qed.

Lemma preconditions_first_failure_witness :
  preconditions
    [must (fun _ => true) "first"; must (fun _ => false) ""; must (fun _ => false) "third"]
    (fun _ => retS 0) [] [] = Throw (Error "failed precondition").
Proof.
  exact (proj2 (preconditions_first_failure
                  [must (fun _ => true) "first"; must (fun _ => false) "";
                   must (fun _ => false) "third"]
                  (fun _ => retS 0) [] [])
           [must (fun _ => true) "first"] (must (fun _ => false) "")
           [must (fun _ => false) "third"] eq_refl eq_refl eq_refl).
Defined.
